(** * Hex-App core: cached JSON store, text matcher, time parser, stores

    A shallow embedding of [utility.py] and [calling.py].  Python values
    that travel through [json.load] / [json.dump] are modelled by [json];
    the process-wide [data_cache], the files below [DATA_DIR] and the toast
    log are fields of an explicit [world] threaded through every call. *)

From Stdlib Require Import ZArith Ascii String List Bool Lia QArith Sorted.
From stdpp Require Import base option list gmap strings fin_maps.

Set Warnings "-register-all".

Local Open Scope string_scope.
Local Open Scope Z_scope.

(** ** JSON documents *)

(** What [json.load] can return.  Numbers are restricted to integers: no
    document written by the application holds a float. *)
Inductive json : Type :=
  | JNull
  | JBool (b : bool)
  | JNum (n : Z)
  | JStr (s : string)
  | JArr (l : list json)
  | JObj (m : gmap string json).

(** Python truth value ([bool(x)]) of a loaded JSON value. *)
Definition truthy (v : json) : bool :=
  match v with
  | JNull => false
  | JBool b => b
  | JNum n => negb (n =? 0)%Z
  | JStr s => negb (String.eqb s "")
  | JArr l => match l with [] => false | _ => true end
  | JObj m => negb (bool_decide (size m = 0%nat))
  end.

(** [d.get(key, default)] on a loaded dict. *)
Definition dict_get (m : gmap string json) (key : string) (default : json) : json :=
  match m !! key with
  | Some v => v
  | None => default
  end.

(** ** Files, cache and toasts *)

(** The bytes of a file as [json.load] sees them: either the text of a
    JSON value, or text on which it raises [JSONDecodeError] (an empty or
    truncated file, for instance).  [json.dump] followed by [json.load]
    gives back the value, which this representation builds in. *)
Inductive file_content : Type :=
  | Parses (d : json)
  | Garbled.

Record file : Type := mkFile {
  f_content : file_content;
  f_mtime : Z               (* os.path.getmtime *)
}.

Record world : Type := mkWorld {
  files : gmap string file;          (* the file system, by path *)
  cache : gmap string json;          (* data_cache.cache *)
  last_modified : gmap string Z;     (* data_cache.last_modified *)
  toasts : list string               (* show_error_toast calls, oldest first *)
}.

Definition set_files (fs : gmap string file) (w : world) : world :=
  mkWorld fs (cache w) (last_modified w) (toasts w).

Definition set_cache (c : gmap string json) (w : world) : world :=
  mkWorld (files w) c (last_modified w) (toasts w).

Definition set_last_modified (lm : gmap string Z) (w : world) : world :=
  mkWorld (files w) (cache w) lm (toasts w).

(** ** Data paths *)

Definition DATA_DIR : string := "data".
Definition path_join (d f : string) : string := d ++ "/" ++ f.
Definition NOTES_FILE : string := path_join DATA_DIR "notes.json".
Definition TASKS_FILE : string := path_join DATA_DIR "tasks.json".
Definition USER_PREFS_FILE : string := path_join DATA_DIR "user_prefs.json".

Fixpoint has_sep (p : string) : bool :=
  match p with
  | EmptyString => false
  | String c r => Ascii.eqb c "/" || has_sep r
  end.

(** [os.path.basename]: what follows the last separator. *)
Fixpoint basename (p : string) : string :=
  match p with
  | EmptyString => EmptyString
  | String c r =>
      if has_sep r then basename r
      else if Ascii.eqb c "/" then r else p
  end.

(** ** Error toast *)

Definition show_error_toast (message : string) (w : world) : world :=
  mkWorld (files w) (cache w) (last_modified w) (toasts w ++ [message]).

(** ** Global cache for JSON data *)

Module DataCache.

(** The [with open(...)] block of [get]: [json.load], then both maps are
    updated; a decode error is caught by the enclosing [except]. *)
Definition read_file (filepath : string) (f : file) (w : world) : json * world :=
  match f_content f with
  | Parses data =>
      (data, set_last_modified (<[filepath := f_mtime f]> (last_modified w))
               (set_cache (<[filepath := data]> (cache w)) w))
  | Garbled =>
      (JNull, show_error_toast ("Cache load error: " ++ basename filepath) w)
  end.

(** [DataCache.get].  Python's [None] is [JNull]: the result does not
    tell a missing or unreadable file from a file holding [null]. *)
Definition get (filepath : string) (w : world) : json * world :=
  match files w !! filepath with
  | None => (JNull, w)
  | Some f =>
      let current_mtime := f_mtime f in
      match cache w !! filepath with
      | Some d =>
          if bool_decide (last_modified w !! filepath = Some current_mtime)
          then (d, w)
          else read_file filepath f w
      | None => read_file filepath f w
      end
  end.

(** [DataCache.invalidate]. *)
Definition invalidate (filepath : string) (w : world) : world :=
  set_last_modified (delete filepath (last_modified w))
    (set_cache (delete filepath (cache w)) w).

(** [DataCache.clear]. *)
Definition clear (w : world) : world :=
  set_last_modified ∅ (set_cache ∅ w).

End DataCache.

(** ** Loading and saving *)

(** Whether a loaded document is the very object held in
    [data_cache.cache] (so that mutating it in place mutates the cache
    entry), or an object of the caller's own. *)
Inductive origin : Type := Shared | Fresh.

(** [default if default else {}]. *)
Definition or_empty (default : json) : json :=
  if truthy default then default else JObj ∅.

(** [safe_load_json]. *)
Definition safe_load_json (filepath : string) (default : json) (w : world)
  : (json * origin) * world :=
  let '(data, w1) := DataCache.get filepath w in
  match data with
  | JNull =>
      match files w1 !! filepath with
      | Some f =>
          match f_content f with
          | Parses data' =>
              ((data', Shared),
               set_last_modified (<[filepath := f_mtime f]> (last_modified w1))
                 (set_cache (<[filepath := data']> (cache w1)) w1))
          | Garbled =>
              ((or_empty default, Fresh),
               show_error_toast ("Invalid JSON: " ++ basename filepath) w1)
          end
      | None => ((or_empty default, Fresh), w1)
      end
  | _ => ((data, Shared), w1)
  end.

(** What the operating system does with one [open(filepath, 'w')] followed
    by [json.dump]: opening for writing truncates the file, so a failure
    after a successful open leaves whatever had been written by then. *)
Inductive write_outcome : Type :=
  | Written (mtime : Z)
  | OpenDenied                               (* open raises PermissionError *)
  | OpenFailed                               (* open raises another OSError *)
  | DumpFailed (mtime : Z) (rest : file_content).  (* raised after open *)

(** [safe_save_json]. *)
Definition safe_save_json (filepath : string) (data : json) (o : write_outcome)
    (w : world) : bool * world :=
  match o with
  | Written t =>
      (true,
       DataCache.invalidate filepath
         (set_files (<[filepath := mkFile (Parses data) t]> (files w)) w))
  | OpenDenied =>
      (false, show_error_toast ("Permission denied: " ++ basename filepath) w)
  | OpenFailed =>
      (false, show_error_toast ("Save failed: " ++ basename filepath) w)
  | DumpFailed t rest =>
      (false,
       show_error_toast ("Save failed: " ++ basename filepath)
         (set_files (<[filepath := mkFile rest t]> (files w)) w))
  end.

Definition load_json := safe_load_json.
Definition save_json := safe_save_json.

(** ** Exceptions *)

(** The Python exceptions that can leave a function of the two modules. *)
Inductive pyexc : Type :=
  | ValueError | OverflowError | TypeError | AttributeError | KeyError.

Inductive result (A : Type) : Type :=
  | Ok (a : A)
  | Raise (e : pyexc).
Arguments Ok {A} a.
Arguments Raise {A} e.

(** ** Naive local timestamps *)

(** A [datetime.datetime] without time zone.  The calendar date is kept as
    its proleptic Gregorian ordinal ([date.toordinal()], day 1 being
    0001-01-01), which is how the library itself does date arithmetic. *)
Record datetime : Type := mkDatetime {
  ordinal : Z;
  hour : Z;
  minute : Z;
  second : Z;
  microsecond : Z
}.

(** [date.max.toordinal()], 9999-12-31. *)
Definition MAXORDINAL : Z := 3652059.

(** [a < b] on datetimes: field by field, most significant first. *)
Definition datetime_ltb (a b : datetime) : bool :=
  if ordinal a =? ordinal b then
    if hour a =? hour b then
      if minute a =? minute b then
        if second a =? second b then microsecond a <? microsecond b
        else second a <? second b
      else minute a <? minute b
    else hour a <? hour b
  else ordinal a <? ordinal b.

Definition datetime_leb (a b : datetime) : bool := negb (datetime_ltb b a).

(** [dt.replace(hour=h, minute=m, second=0, microsecond=0)]: the
    constructor checks the new fields and raises [ValueError]. *)
Definition replace_time (dt : datetime) (h m : Z) : result datetime :=
  if (0 <=? h) && (h <=? 23) && (0 <=? m) && (m <=? 59)
  then Ok (mkDatetime (ordinal dt) h m 0 0)
  else Raise ValueError.

(** [dt + timedelta(seconds=s)] for an integer [s]: the sum is normalised
    to days and seconds of the day; a date outside years 1..9999 raises
    [OverflowError] (as does a [timedelta] too large to build). *)
Definition add_seconds (dt : datetime) (s : Z) : result datetime :=
  let total := hour dt * 3600 + minute dt * 60 + second dt + s in
  let days := ordinal dt + total / 86400 in
  let rem := total mod 86400 in
  if (0 <? days) && (days <=? MAXORDINAL)
  then Ok (mkDatetime days (rem / 3600) ((rem mod 3600) / 60) ((rem mod 3600) mod 60)
             (microsecond dt))
  else Raise OverflowError.

Definition add_days (dt : datetime) (n : Z) : result datetime :=
  add_seconds dt (n * 86400).
Definition add_hours (dt : datetime) (n : Z) : result datetime :=
  add_seconds dt (n * 3600).
Definition add_minutes (dt : datetime) (n : Z) : result datetime :=
  add_seconds dt (n * 60).

(** ** Characters *)

(** The model reads a string as a sequence of ASCII characters; a
    character above 127 is neither a digit, nor white space, nor a
    letter. *)
Definition is_digit (c : ascii) : bool :=
  let n := nat_of_ascii c in (48 <=? n)%nat && (n <=? 57)%nat.

(** [str.isspace] within ASCII, which is also [\s] of [re]. *)
Definition is_space (c : ascii) : bool :=
  let n := nat_of_ascii c in
  ((9 <=? n)%nat && (n <=? 13)%nat) || ((28 <=? n)%nat && (n <=? 32)%nat).

Definition lower_char (c : ascii) : ascii :=
  let n := nat_of_ascii c in
  if (65 <=? n)%nat && (n <=? 90)%nat then ascii_of_nat (n + 32) else c.

(** [str.lower]. *)
Fixpoint lower (s : string) : string :=
  match s with
  | EmptyString => EmptyString
  | String c r => String (lower_char c) (lower r)
  end.

Fixpoint skip_spaces (s : string) : string :=
  match s with
  | EmptyString => EmptyString
  | String c r => if is_space c then skip_spaces r else s
  end.

Fixpoint rev_string (s acc : string) : string :=
  match s with
  | EmptyString => acc
  | String c r => rev_string r (String c acc)
  end.

(** [str.strip]. *)
Definition strip (s : string) : string :=
  rev_string (skip_spaces (rev_string (skip_spaces s) "")) "".

Fixpoint all_digits (s : string) : bool :=
  match s with
  | EmptyString => true
  | String c r => is_digit c && all_digits r
  end.

(** [int(s)] on a string of decimal digits. *)
Fixpoint int_acc (s : string) (acc : Z) : Z :=
  match s with
  | EmptyString => acc
  | String c r => int_acc r (acc * 10 + (Z.of_nat (nat_of_ascii c) - 48))
  end.
Definition int (s : string) : Z := int_acc s 0.

(** [sys.int_info.default_max_str_digits]. *)
Definition int_max_str_digits : nat := 4300.

(** [int(s)] on a string of decimal digits of any length: CPython
    refuses a string of more than [int_max_str_digits] digits, leading
    zeros counted, with [ValueError]. *)
Definition int_checked (s : string) : result Z :=
  if (int_max_str_digits <? String.length s)%nat then Raise ValueError
  else Ok (int s).

(** ** The three patterns of [parse_time_input]

    Each pattern is matched the way [re.search] does it: start positions
    from left to right, and at each start the alternatives in the order a
    backtracking matcher tries them (greedy counts first).  A match is
    reported by its groups. *)

Module Pattern.

(** [(am|pm)] at the head of [s]. *)
Definition meridiem (s : string) : option string :=
  if String.prefix "am" s then Some "am"
  else if String.prefix "pm" s then Some "pm"
  else None.

(** [\s*(am|pm)] at the head of [s].  Giving back white space cannot
    help, the group starts with a letter, so only the longest run is
    tried. *)
Definition spaces_meridiem (s : string) : option string :=
  meridiem (skip_spaces s).

(** [(?::(\d{2}))?\s*(am|pm)] at the head of [s]: first with the
    optional group, then without. *)
Definition minutes_meridiem (s : string) : option (option string * string) :=
  let without := (λ p, (None, p)) <$> spaces_meridiem s in
  match s with
  | String c (String d1 (String d2 r)) =>
      if Ascii.eqb c ":" && is_digit d1 && is_digit d2 then
        match spaces_meridiem r with
        | Some p => Some (Some (String d1 (String d2 "")), p)
        | None => without
        end
      else without
  | _ => without
  end.

(** [(\d{1,2})(?::(\d{2}))?\s*(am|pm)] anchored at the head of [s]:
    two digits first, then one. *)
Definition form1_at (s : string) : option (string * option string * string) :=
  match s with
  | String h1 r1 =>
      if is_digit h1 then
        let one := (λ '(m, p), (String h1 "", m, p)) <$> minutes_meridiem r1 in
        match r1 with
        | String h2 r2 =>
            if is_digit h2 then
              match minutes_meridiem r2 with
              | Some (m, p) => Some (String h1 (String h2 ""), m, p)
              | None => one
              end
            else one
        | EmptyString => one
        end
      else None
  | EmptyString => None
  end.

(** [:(\d{2})] at the head of [s]. *)
Definition colon_minutes (s : string) : option string :=
  match s with
  | String c (String d1 (String d2 _)) =>
      if Ascii.eqb c ":" && is_digit d1 && is_digit d2
      then Some (String d1 (String d2 "")) else None
  | _ => None
  end.

(** [(\d{1,2}):(\d{2})] anchored at the head of [s]. *)
Definition form2_at (s : string) : option (string * string) :=
  match s with
  | String h1 r1 =>
      if is_digit h1 then
        let one := (λ m, (String h1 "", m)) <$> colon_minutes r1 in
        match r1 with
        | String h2 r2 =>
            if is_digit h2 then
              match colon_minutes r2 with
              | Some m => Some (String h1 (String h2 ""), m)
              | None => one
              end
            else one
        | EmptyString => one
        end
      else None
  | EmptyString => None
  end.

(** The longest run of digits at the head of [s], and what follows. *)
Fixpoint digits (s : string) : string * string :=
  match s with
  | EmptyString => (EmptyString, EmptyString)
  | String c r =>
      if is_digit c then let '(d, rest) := digits r in (String c d, rest)
      else (EmptyString, s)
  end.

(** [(minute|hour|min|hr)] at the head of [s], alternatives in order. *)
Definition unit (s : string) : option string :=
  if String.prefix "minute" s then Some "minute"
  else if String.prefix "hour" s then Some "hour"
  else if String.prefix "min" s then Some "min"
  else if String.prefix "hr" s then Some "hr"
  else None.

(** [in\s+(\d+)\s*(minute|hour|min|hr)s?] anchored at the head of [s].
    The greedy runs are not shortened: after fewer white space a digit
    is required, after fewer digits a letter. *)
Definition form3_at (s : string) : option (string * string) :=
  match s with
  | String c1 (String c2 (String c r)) =>
      if Ascii.eqb c1 "i" && Ascii.eqb c2 "n" && is_space c then
        let '(amount, rest) := digits (skip_spaces r) in
        match amount with
        | EmptyString => None
        | _ => (λ u, (amount, u)) <$> unit (skip_spaces rest)
        end
      else None
  | _ => None
  end.

(** [re.search]: the match at the leftmost start position that has one. *)
Fixpoint search {G : Type} (at_head : string → option G) (s : string) : option G :=
  match at_head s with
  | Some g => Some g
  | None =>
      match s with
      | EmptyString => None
      | String _ r => search at_head r
      end
  end.

End Pattern.

(** ** Time parser *)

(** The body that forms 1 and 2 share: today at [h]:[m], tomorrow when
    that is already past.  [now] and [now'] are the two successive readings
    of [datetime.now()]. *)
Definition today_or_tomorrow (h m : Z) (now now' : datetime) : result (option datetime) :=
  match replace_time now h m with
  | Raise e => Raise e
  | Ok target_time =>
      if datetime_ltb target_time now' then
        match add_days target_time 1 with
        | Raise e => Raise e
        | Ok t => Ok (Some t)
        end
      else Ok (Some target_time)
  end.

(** [parse_time_input], with the readings of the clock as arguments. *)
Definition parse_time_input (text : string) (now now' : datetime)
  : result (option datetime) :=
  let text := strip (lower text) in
  (* Format: 5pm, 5:30pm *)
  match Pattern.search Pattern.form1_at text with
  | Some (g1, g2, period) =>
      let hour := int g1 in
      let minute := match g2 with Some g => int g | None => 0 end in
      let hour :=
        if String.eqb period "pm" && negb (hour =? 12) then hour + 12
        else if String.eqb period "am" && (hour =? 12) then 0
        else hour in
      today_or_tomorrow hour minute now now'
  | None =>
      (* Format: 17:30 *)
      match Pattern.search Pattern.form2_at text with
      | Some (g1, g2) => today_or_tomorrow (int g1) (int g2) now now'
      | None =>
          (* Format: in 2 hours, in 30 minutes *)
          match Pattern.search Pattern.form3_at text with
          | Some (g1, unit) =>
              match int_checked g1 with
              | Raise e => Raise e
              | Ok amount =>
                  if String.eqb unit "minute" || String.eqb unit "min" then
                    match add_minutes now amount with
                    | Raise e => Raise e
                    | Ok t => Ok (Some t)
                    end
                  else if String.eqb unit "hour" || String.eqb unit "hr" then
                    match add_hours now amount with
                    | Raise e => Raise e
                    | Ok t => Ok (Some t)
                    end
                  else Ok None
              end
          | None => Ok None
          end
      end
  end.

(** The parser of the contract, [parse(text, now)]: one instant serves
    every reading of the clock. *)
Definition parse (text : string) (now : datetime) : result (option datetime) :=
  parse_time_input text now now.

(** ** Calls that read and write the world, and may raise *)

Definition M (A : Type) : Type := world → result A * world.

#[global] Instance M_ret : MRet M := λ A a w, (Ok a, w).
#[global] Instance M_bind : MBind M := λ A B k c w,
  match c w with
  | (Ok a, w') => k a w'
  | (Raise e, w') => (Raise e, w')
  end.

(** A call that cannot raise. *)
Definition run {A : Type} (f : world → A * world) : M A :=
  λ w, let '(a, w') := f w in (Ok a, w').

(** A pure step that may raise. *)
Definition lift {A : Type} (r : result A) : M A := λ w, (r, w).

(** ** Python operations on loaded values *)

(** [v.get(key, default)]: only a dict has the method. *)
Definition py_get (v : json) (key : string) (default : json) : result json :=
  match v with
  | JObj m => Ok (dict_get m key default)
  | _ => Raise AttributeError
  end.

(** [v[key]] with a string key. *)
Definition py_getitem (v : json) (key : string) : result json :=
  match v with
  | JObj m => match m !! key with Some x => Ok x | None => Raise KeyError end
  | _ => Raise TypeError
  end.

(** [v[key] = x] with a string key. *)
Definition py_setitem (v : json) (key : string) (x : json) : result json :=
  match v with
  | JObj m => Ok (JObj (<[key := x]> m))
  | _ => Raise TypeError
  end.

Fixpoint chars (s : string) : list json :=
  match s with
  | EmptyString => []
  | String c r => JStr (String c EmptyString) :: chars r
  end.

(** What [for x in v] visits: the items of a list, the keys of a dict,
    the characters of a string; anything else is not iterable. *)
Definition py_iter (v : json) : result (list json) :=
  match v with
  | JArr l => Ok l
  | JObj m => Ok (JStr <$> (map_to_list m).*1)
  | JStr s => Ok (chars s)
  | _ => Raise TypeError
  end.

(** [v == s] for a string [s]. *)
Definition eq_str (v : json) (s : string) : bool :=
  match v with
  | JStr s' => String.eqb s' s
  | _ => false
  end.

(** An in-place mutation of a loaded document, whose value is [d']
    afterwards: the cache entry is that same object when the document is
    [Shared]. *)
Definition mutated (filepath : string) (o : origin) (d' : json) (w : world) : world :=
  match o with
  | Shared => set_cache (<[filepath := d']> (cache w)) w
  | Fresh => w
  end.

(** ** Formatting and reading timestamps *)

(** The [datetime] methods that turn a timestamp into text and back.
    [fromisoformat] gives [None] where the library raises [ValueError], and
    also where it returns a timestamp with a time zone: comparing that with
    the naive [datetime.now()] raises [TypeError], which the one caller
    catches in the same handler. *)
Class DatetimeFormat : Type := {
  isoformat : datetime → string;
  fromisoformat : string → option datetime;
  strftime : string → datetime → string
}.

#[global] Instance result_ret : MRet result := λ A a, Ok a.
#[global] Instance result_bind : MBind result := λ A B k r,
  match r with
  | Ok a => k a
  | Raise e => Raise e
  end.

(** The tail of every function that marks or rewrites one record: the
    list, mutated in place, is stored back under the user and the document
    is saved. *)
Definition store_back (filepath user_id : string) (org : origin)
    (doc user_items : json) (items' : list json) (o : write_outcome) : M unit :=
  let user_items' := match user_items with
                     | JArr _ => JArr items'
                     | _ => user_items
                     end in
  doc' ← lift (py_setitem doc user_id user_items');
  _ ← run (λ w, (tt, mutated filepath org doc' w));
  _ ← run (save_json filepath doc' o);
  mret tt.

(** ** Tutorial preferences *)

Module TutorialManager.

(** [is_first_time]. *)
Definition is_first_time (user_id : string) : M bool :=
  '(prefs, _) ← run (load_json USER_PREFS_FILE (JObj ∅));
  record ← lift (py_get prefs user_id (JObj ∅));
  shown ← lift (py_get record "tutorial_shown" (JBool false));
  mret (negb (truthy shown)).

(** [mark_tutorial_complete].  On anything but a dict, the membership
    test or the item assignment that follows it raises [TypeError]
    before anything is changed. *)
Definition mark_tutorial_complete (user_id : string) (o : write_outcome) : M unit :=
  '(prefs, org) ← run (load_json USER_PREFS_FILE (JObj ∅));
  match prefs with
  | JObj m =>
      let m1 := match m !! user_id with
                | Some _ => m
                | None => <[user_id := JObj ∅]> m
                end in
      record ← lift (py_getitem (JObj m1) user_id);
      record' ← lift (py_setitem record "tutorial_shown" (JBool true));
      let prefs' := JObj (<[user_id := record']> m1) in
      _ ← run (λ w, (tt, mutated USER_PREFS_FILE org prefs' w));
      _ ← run (save_json USER_PREFS_FILE prefs' o);
      mret tt
  | _ => lift (Raise TypeError)
  end.

End TutorialManager.

(** ** Tasks *)

Module TaskChecker.

(** The [try] block of [get_pending_tasks]: whether the task's time
    reads as a timestamp at or before [current_time].  A missing key, a
    value that is not a string and a string that does not read are all
    swallowed by the bare [except]. *)
Definition due `{DatetimeFormat} (task : json) (current_time : datetime) : bool :=
  match py_getitem task "time" with
  | Ok (JStr s) =>
      match fromisoformat s with
      | Some task_time => datetime_leb task_time current_time
      | None => false
      end
  | _ => false
  end.

(** The loop of [get_pending_tasks]. *)
Fixpoint scan `{DatetimeFormat} (user_tasks : list json) (current_time : datetime)
  : result (list json) :=
  match user_tasks with
  | [] => Ok []
  | task :: rest =>
      completed ← py_get task "completed" (JBool false);
      if truthy completed then scan rest current_time
      else
        notified ← py_get task "notified" (JBool false);
        if truthy notified then scan rest current_time
        else
          pending ← scan rest current_time;
          mret (if due task current_time then task :: pending else pending)
  end.

(** [get_pending_tasks]; [current_time] is the reading of the clock. *)
Definition get_pending_tasks `{DatetimeFormat} (user_id : string)
    (current_time : datetime) : M (list json) :=
  '(tasks, _) ← run (load_json TASKS_FILE (JObj ∅));
  user_tasks ← lift (py_get tasks user_id (JArr []));
  items ← lift (py_iter user_tasks);
  lift (scan items current_time).

(** The loop of [mark_task_notified] and [mark_task_completed]: the
    first task whose id is [task_id] gets [flag] set, and the loop
    stops there. *)
Fixpoint set_flag (flag task_id : string) (user_tasks : list json)
  : result (list json) :=
  match user_tasks with
  | [] => Ok []
  | task :: rest =>
      id ← py_get task "id" JNull;
      if eq_str id task_id then
        task' ← py_setitem task flag (JBool true);
        mret (task' :: rest)
      else
        rest' ← set_flag flag task_id rest;
        mret (task :: rest')
  end.

(** [mark_task_notified]. *)
Definition mark_task_notified (user_id task_id : string) (o : write_outcome) : M unit :=
  '(tasks, org) ← run (load_json TASKS_FILE (JObj ∅));
  user_tasks ← lift (py_get tasks user_id (JArr []));
  items ← lift (py_iter user_tasks);
  items' ← lift (set_flag "notified" task_id items);
  store_back TASKS_FILE user_id org tasks user_tasks items' o.

(** [mark_task_completed]. *)
Definition mark_task_completed (user_id task_id : string) (o : write_outcome) : M unit :=
  '(tasks, org) ← run (load_json TASKS_FILE (JObj ∅));
  user_tasks ← lift (py_get tasks user_id (JArr []));
  items ← lift (py_iter user_tasks);
  items' ← lift (set_flag "completed" task_id items);
  store_back TASKS_FILE user_id org tasks user_tasks items' o.

Definition unparseable_message : string :=
  "Could not understand the time format. Try '5pm', '17:30', or 'in 2 hours'".

(** [create_task].  [now] and [now'] are the clock readings of the
    parser, [created] the later one of the record, [new_id] the text of
    the fresh [uuid4]. *)
Definition create_task `{DatetimeFormat} (user_id reason time_str : string)
    (now now' created : datetime) (new_id : string) (o : write_outcome)
  : M (bool * string) :=
  target_time ← lift (parse_time_input time_str now now');
  match target_time with
  | None => mret (false, unparseable_message)
  | Some target_time =>
      '(tasks, org) ← run (load_json TASKS_FILE (JObj ∅));
      match tasks with
      | JObj m =>
          let m1 := match m !! user_id with
                    | Some _ => m
                    | None => <[user_id := JArr []]> m
                    end in
          let new_task :=
            JObj (list_to_map
              [("id", JStr new_id);
               ("reason", JStr reason);
               ("time", JStr (isoformat target_time));
               ("created", JStr (isoformat created));
               ("completed", JBool false);
               ("notified", JBool false)]) in
          match dict_get m1 user_id JNull with
          | JArr l =>
              let tasks' := JObj (<[user_id := JArr (l ++ [new_task])]> m1) in
              _ ← run (λ w, (tt, mutated TASKS_FILE org tasks' w));
              _ ← run (save_json TASKS_FILE tasks' o);
              let time_display := strftime "%I:%M %p on %B %d" target_time in
              mret (true, "Reminder set for " ++ time_display ++ ": " ++ reason)
          | _ => lift (Raise AttributeError)
          end
      | _ => lift (Raise TypeError)
      end
  end.

End TaskChecker.

(** ** Notes *)

Module NoteManager.

(** [get_notes]. *)
Definition get_notes (user_id : string) : M json :=
  '(notes, _) ← run (load_json NOTES_FILE (JObj ∅));
  lift (py_get notes user_id (JArr [])).




(** The comprehension of [delete_note]: the notes whose id is not
    [note_id], each id read with [n['id']]. *)
Fixpoint keep_others (note_id : string) (user_notes : list json) : result (list json) :=
  match user_notes with
  | [] => Ok []
  | n :: rest =>
      id ← py_getitem n "id";
      rest' ← keep_others note_id rest;
      mret (if eq_str id note_id then rest' else n :: rest')
  end.

(** [delete_note]. *)
Definition delete_note (user_id note_id : string) (o : write_outcome) : M bool :=
  '(notes, org) ← run (load_json NOTES_FILE (JObj ∅));
  user_notes ← lift (py_get notes user_id (JArr []));
  items ← lift (py_iter user_notes);
  kept ← lift (keep_others note_id items);
  notes' ← lift (py_setitem notes user_id (JArr kept));
  _ ← run (λ w, (tt, mutated NOTES_FILE org notes' w));
  _ ← run (save_json NOTES_FILE notes' o);
  mret true.

End NoteManager.

(** ** The calendar of the [datetime] library

    The canonical text of a timestamp, [YYYY-MM-DDTHH:MM:SS[.ffffff]], as
    [isoformat] writes it, and the directives of [strftime] that the
    application uses.  Every Python version reads that text back with
    [fromisoformat]; later versions accept more. *)

Module Calendar.

Definition is_leap (year : Z) : bool :=
  (year mod 4 =? 0) && (negb (year mod 100 =? 0) || (year mod 400 =? 0)).

Definition days_before_year (year : Z) : Z :=
  let y := year - 1 in y * 365 + y / 4 - y / 100 + y / 400.

Definition DAYS_IN_MONTH : list Z := [31; 28; 31; 30; 31; 30; 31; 31; 30; 31; 30; 31].

Definition days_in_month (year month : Z) : Z :=
  if (month =? 2) && is_leap year then 29
  else nth (Z.to_nat (month - 1)) DAYS_IN_MONTH 0.

Definition days_before_month (year month : Z) : Z :=
  fold_right Z.add 0 (firstn (Z.to_nat (month - 1)) DAYS_IN_MONTH)
  + (if (2 <? month) && is_leap year then 1 else 0).

Definition ymd2ord (year month day : Z) : Z :=
  days_before_year year + days_before_month year month + day.

Definition DI400Y : Z := days_before_year 401.
Definition DI100Y : Z := days_before_year 101.
Definition DI4Y : Z := days_before_year 5.

Definition ord2ymd (n : Z) : Z * Z * Z :=
  let n := n - 1 in
  let n400 := n / DI400Y in let n := n mod DI400Y in
  let year := n400 * 400 + 1 in
  let n100 := n / DI100Y in let n := n mod DI100Y in
  let n4 := n / DI4Y in let n := n mod DI4Y in
  let n1 := n / 365 in let n := n mod 365 in
  let year := year + n100 * 100 + n4 * 4 + n1 in
  if (n1 =? 4) || (n100 =? 4) then (year - 1, 12, 31)
  else
    let leapyear := (n1 =? 3) && (negb (n4 =? 24) || (n100 =? 3)) in
    let month := Z.shiftr (n + 50) 5 in
    let preceding :=
      fold_right Z.add 0 (firstn (Z.to_nat (month - 1)) DAYS_IN_MONTH)
      + (if (2 <? month) && leapyear then 1 else 0) in
    if n <? preceding then
      let month := month - 1 in
      let preceding :=
        preceding - (nth (Z.to_nat (month - 1)) DAYS_IN_MONTH 0
                     + (if (month =? 2) && leapyear then 1 else 0)) in
      (year, month, n - preceding + 1)
    else (year, month, n - preceding + 1).

Definition digit_char (d : Z) : ascii := ascii_of_nat (48 + Z.to_nat d).

(** [n] in decimal on [width] digits, zero-padded. *)
Fixpoint pad (width : nat) (n : Z) : string :=
  match width with
  | O => EmptyString
  | S w => (pad w (n / 10) ++ String (digit_char (n mod 10)) EmptyString)%string
  end.

Definition isoformat (dt : datetime) : string :=
  let '(y, m, d) := ord2ymd (ordinal dt) in
  (pad 4 y ++ "-" ++ pad 2 m ++ "-" ++ pad 2 d ++ "T"
   ++ pad 2 (hour dt) ++ ":" ++ pad 2 (minute dt) ++ ":" ++ pad 2 (second dt)
   ++ (if Z.eqb (microsecond dt) 0 then "" else "." ++ pad 6 (microsecond dt)))%string.

(** The [len] digits of [s] from [start], as a number. *)
Definition field (s : string) (start len : nat) : option Z :=
  let f := substring start len s in
  if (String.length f =? len)%nat && all_digits f then Some (int f) else None.

Definition char_at (s : string) (i : nat) (c : ascii) : bool :=
  match String.get i s with
  | Some c' => Ascii.eqb c' c
  | None => false
  end.

Definition fromisoformat (s : string) : option datetime :=
  let n := String.length s in
  if negb ((n =? 19)%nat || (n =? 26)%nat) then None
  else if negb (char_at s 4 "-" && char_at s 7 "-" && char_at s 10 "T"
                && char_at s 13 ":" && char_at s 16 ":") then None
  else if (n =? 26)%nat && negb (char_at s 19 ".") then None
  else
    y ← field s 0 4; m ← field s 5 2; d ← field s 8 2;
    hh ← field s 11 2; mm ← field s 14 2; ss ← field s 17 2;
    us ← (if (n =? 26)%nat then field s 20 6 else Some 0);
    if (1 <=? y) && (1 <=? m) && (m <=? 12) && (1 <=? d) && (d <=? days_in_month y m)
       && (hh <=? 23) && (mm <=? 59) && (ss <=? 59)
    then Some (mkDatetime (ymd2ord y m d) hh mm ss us)
    else None.

Definition MONTHS : list string :=
  ["January"; "February"; "March"; "April"; "May"; "June"; "July";
   "August"; "September"; "October"; "November"; "December"].

Fixpoint drop_zeros (s : string) : string :=
  match s with
  | String c r => if Ascii.eqb c "0" then drop_zeros r else s
  | EmptyString => EmptyString
  end.

(** One directive of [strftime], in the C locale; the C library does not
    pad the year. *)
Definition directive (c : ascii) (dt : datetime) : string :=
  let '(y, m, d) := ord2ymd (ordinal dt) in
  if Ascii.eqb c "I" then pad 2 (if hour dt mod 12 =? 0 then 12 else hour dt mod 12)
  else if Ascii.eqb c "M" then pad 2 (minute dt)
  else if Ascii.eqb c "p" then (if hour dt <? 12 then "AM" else "PM")
  else if Ascii.eqb c "B" then nth (Z.to_nat (m - 1)) MONTHS ""
  else if Ascii.eqb c "d" then pad 2 d
  else if Ascii.eqb c "Y" then drop_zeros (pad 4 y)
  else String "%" (String c EmptyString).

Fixpoint strftime (format : string) (dt : datetime) : string :=
  match format with
  | String "%"%char (String c r) => (directive c dt ++ strftime r dt)%string
  | String c r => String c (strftime r dt)
  | EmptyString => EmptyString
  end.

#[export] Instance python_format : DatetimeFormat :=
  Build_DatetimeFormat isoformat fromisoformat strftime.


End Calendar.

(** ** Text matcher *)

(** [difflib.SequenceMatcher(None, a, b)] as far as [ratio()] needs it.
    No junk function is given, so the junk set is empty and only the
    automatic junk heuristic (popular elements of a long [b]) applies. *)
Module SequenceMatcher.

(** A block [(i, j, k)]: [a[i:i+k] == b[j:j+k]]. *)
Definition block : Type := Z * Z * Z.

Definition size (x : block) : Z := x.2.

(** [s[i]] for an index that the loops keep within [0, len(s)). *)
Definition item (s : list ascii) (i : Z) : option ascii := s !! Z.to_nat i.

(** The first loop of [__chain_b]: for each element of [b], the
    indices where it occurs, in increasing order. *)
Fixpoint index_elements (i : Z) (b : list ascii) (b2j : gmap ascii (list Z))
  : gmap ascii (list Z) :=
  match b with
  | [] => b2j
  | elt :: r =>
      index_elements (i + 1) r (<[elt := (default [] (b2j !! elt) ++ [i])%list]> b2j)
  end.

(** [__chain_b]: elements of a [b] of 200 or more that occur more than
    [n // 100 + 1] times are popular and lose their entry. *)
Definition chain_b (b : list ascii) : gmap ascii (list Z) :=
  let b2j := index_elements 0 b ∅ in
  let n := Z.of_nat (length b) in
  if 200 <=? n then
    let ntest := n / 100 + 1 in
    filter (λ kv, Z.of_nat (length kv.2) <= ntest) b2j
  else b2j.

Section Matcher.

Variables a b : list ascii.
Variable b2j : gmap ascii (list Z).

(** The inner loop of [find_longest_match], over the indices [j] of
    [b] that hold [a[i]]. *)
Fixpoint scan_row (blo bhi i : Z) (j2len : gmap Z Z) (js : list Z)
    (newj2len : gmap Z Z) (best : block) : gmap Z Z * block :=
  match js with
  | [] => (newj2len, best)
  | j :: rest =>
      if j <? blo then scan_row blo bhi i j2len rest newj2len best
      else if bhi <=? j then (newj2len, best)
      else
        let k := default 0 (j2len !! (j - 1)) + 1 in
        scan_row blo bhi i j2len rest (<[j := k]> newj2len)
          (if size best <? k then (i - k + 1, j - k + 1, k) else best)
  end.

(** The outer loop, [for i in range(alo, ahi)], with [n] rows to go. *)
Fixpoint scan_rows (blo bhi : Z) (n : nat) (i : Z) (j2len : gmap Z Z)
    (best : block) : block :=
  match n with
  | O => best
  | S n' =>
      let js := match item a i with
                | Some elt => default [] (b2j !! elt)
                | None => []
                end in
      let '(newj2len, best) := scan_row blo bhi i j2len js ∅ best in
      scan_rows blo bhi n' (i + 1) newj2len best
  end.

(** [while besti > alo and bestj > blo and a[besti-1] == b[bestj-1]]:
    at most [n] steps, and [n] is never less than [besti - alo]. *)
Fixpoint extend_back (alo blo : Z) (n : nat) (best : block) : block :=
  let '(besti, bestj, bestsize) := best in
  match n with
  | O => best
  | S n' =>
      if (alo <? besti) && (blo <? bestj)
         && bool_decide (item a (besti - 1) = item b (bestj - 1))
      then extend_back alo blo n' (besti - 1, bestj - 1, bestsize + 1)
      else best
  end.

(** [while besti+bestsize < ahi and bestj+bestsize < bhi and
    a[besti+bestsize] == b[bestj+bestsize]]. *)
Fixpoint extend_forward (ahi bhi : Z) (n : nat) (best : block) : block :=
  let '(besti, bestj, bestsize) := best in
  match n with
  | O => best
  | S n' =>
      if (besti + bestsize <? ahi) && (bestj + bestsize <? bhi)
         && bool_decide (item a (besti + bestsize) = item b (bestj + bestsize))
      then extend_forward ahi bhi n' (besti, bestj, bestsize + 1)
      else best
  end.

(** [find_longest_match(alo, ahi, blo, bhi)].  The two loops that
    absorb junk on either side are left out: their conditions ask for
    a junk element, and there is none. *)
Definition find_longest_match (alo ahi blo bhi : Z) : block :=
  let best := scan_rows blo bhi (Z.to_nat (ahi - alo)) alo ∅ (alo, blo, 0) in
  let best := extend_back alo blo (Z.to_nat (best.1.1 - alo)) best in
  extend_forward ahi bhi (Z.to_nat (ahi - (best.1.1 + size best))) best.

(** The loop of [get_matching_blocks], [while queue:], run for at
    most [fuel] rounds; [None] when the queue is not empty by then.
    The queue is a Python list used as a stack, its top at the head
    here. *)
Fixpoint matching_loop (fuel : nat) (queue : list (Z * Z * Z * Z))
    (matching_blocks : list block) : option (list block) :=
  match queue with
  | [] => Some matching_blocks
  | (alo, ahi, blo, bhi) :: queue =>
      match fuel with
      | O => None
      | S fuel' =>
          let '(i, j, k) := find_longest_match alo ahi blo bhi in
          if k =? 0 then matching_loop fuel' queue matching_blocks
          else
            let queue := if (alo <? i) && (blo <? j)
                         then (alo, i, blo, j) :: queue else queue in
            let queue := if (i + k <? ahi) && (j + k <? bhi)
                         then (i + k, ahi, j + k, bhi) :: queue else queue in
            matching_loop fuel' queue (matching_blocks ++ [(i, j, k)])%list
      end
  end.

End Matcher.

(** [get_matching_blocks], up to the order of the blocks: the sort, the
    merge of adjacent blocks and the closing [(la, lb, 0)] that follow
    the loop do not change the sum of the sizes, which is all that
    [ratio] reads.  A round removes one range from the queue and adds at
    most two, each with fewer elements of [a]: [2 * la + 1] rounds are
    enough. *)
Definition get_matching_blocks (a b : list ascii) : option (list block) :=
  let la := Z.of_nat (length a) in
  let lb := Z.of_nat (length b) in
  matching_loop a b (chain_b b) (2 * length a + 1) [(0, la, 0, lb)] [].

(** [_calculate_ratio]: [2.0 * matches / length], and [1.0] for two
    empty sequences.  The quotient is kept exact. *)
Definition calculate_ratio (matches length : Z) : Q :=
  if length =? 0 then 1%Q else Qmake (2 * matches) (Z.to_pos length).

(** [ratio()]. *)
Definition ratio (a b : list ascii) : option Q :=
  blocks ← get_matching_blocks a b;
  let matches := fold_right Z.add 0 (size <$> blocks) in
  mret (calculate_ratio matches (Z.of_nat (length a) + Z.of_nat (length b))).

End SequenceMatcher.

(** [fuzzy_similarity]; [None] would be a matcher that does not return. *)
Definition fuzzy_similarity (str1 str2 : string) : option Q :=
  SequenceMatcher.ratio (list_ascii_of_string (lower str1))
                        (list_ascii_of_string (lower str2)).

(** [fuzzy_match]. *)
Definition fuzzy_match (str1 str2 : string) (threshold : Q) : option bool :=
  ratio ← fuzzy_similarity str1 str2;
  mret (Qle_bool threshold ratio).

(** The default of [fuzzy_match], [threshold=0.8]. *)
Definition default_threshold : Q := 8 # 10.

(** ** The typewriter label

    [TypeWriterLabel] of the chat bubbles.  The characters of the text are
    left abstract.  Of Kivy's clock the model keeps the events that are
    scheduled to call [_type_next_char]: [Clock.schedule_interval]
    schedules a fresh event, [event.cancel()] unschedules it, and an event
    whose callback returns [False] is unscheduled by the clock. *)
Module TypeWriterLabel.

Section Label.

Context {char : Type}.

Record label : Type := mkLabel {
  full_text : list char;
  text : list char;
  current_index : Z;
  _animation_event : option nat;
  scheduled : list nat;
  next_event : nat
}.

(** [s[:n]]. *)
Definition slice_to (s : list char) (n : Z) : list char :=
  if n <? 0 then take (Z.to_nat (Z.of_nat (length s) + n)) s
  else take (Z.to_nat n) s.

(** [event.cancel()]. *)
Definition cancel (e : nat) (clock : list nat) : list nat :=
  List.filter (λ x, negb (Nat.eqb x e)) clock.

(** [__init__]. *)
Definition init : label := mkLabel [] [] 0 None [] 0.

(** [start_animation]. *)
Definition start_animation (t : list char) (l : label) : label :=
  let clock := match _animation_event l with
               | Some e => cancel e (scheduled l)
               | None => scheduled l
               end in
  mkLabel t [] 0 (Some (next_event l)) (next_event l :: clock) (S (next_event l)).

(** [_type_next_char]; the boolean is false when the method returns
    [False], true when it returns nothing. *)
Definition _type_next_char (l : label) : label * bool :=
  if current_index l <? Z.of_nat (length (full_text l)) then
    (mkLabel (full_text l) (slice_to (full_text l) (current_index l + 1))
       (current_index l + 1) (_animation_event l) (scheduled l) (next_event l),
     true)
  else
    (match _animation_event l with
     | Some e =>
         mkLabel (full_text l) (text l) (current_index l) None
           (cancel e (scheduled l)) (next_event l)
     | None => l
     end, false).

(** The clock fires the event [e]. *)
Definition fire (e : nat) (l : label) : label :=
  if existsb (Nat.eqb e) (scheduled l) then
    let '(l', again) := _type_next_char l in
    if again then l'
    else mkLabel (full_text l') (text l') (current_index l') (_animation_event l')
           (cancel e (scheduled l')) (next_event l')
  else l.

End Label.

Arguments label : clear implicits.

End TypeWriterLabel.

(** ** Placeholders *)

(** [str.replace(old, new)] for a non-empty [old]: the occurrences are
    taken from left to right and do not overlap; [skip] counts the
    characters of an occurrence that are still to be passed over. *)
Fixpoint replace_from (skip : nat) (old new s : string) : string :=
  match s with
  | EmptyString => EmptyString
  | String c r =>
      match skip with
      | S k => replace_from k old new r
      | O =>
          if String.prefix old s
          then (new ++ replace_from (String.length old - 1) old new r)%string
          else String c (replace_from 0 old new r)
      end
  end.

(** [text.replace(old, new)]; a [new] that is not a string raises. *)
Definition py_replace (text old : string) (new : json) : result string :=
  match new with
  | JStr v => Ok (replace_from 0 old v text)
  | _ => Raise TypeError
  end.

Module DataCaller.

Definition get_current_date `{DatetimeFormat} (now : datetime) : string :=
  strftime "%A, %B %d, %Y" now.

Definition get_current_time `{DatetimeFormat} (now : datetime) : string :=
  strftime "%I:%M %p" now.

(** [get_user_name]; [user] is a loaded record or [None]. *)
Definition get_user_name (user : json) : result json :=
  if truthy user then py_get user "name" (JStr "User") else Ok (JStr "User").

Definition get_greeting (now : datetime) : string :=
  let hour := hour now in
  if (5 <=? hour) && (hour <? 12) then "Good morning"
  else if (12 <=? hour) && (hour <? 17) then "Good afternoon"
  else if (17 <=? hour) && (hour <? 21) then "Good evening"
  else "Hello".

(** [replace_placeholders]; the three timestamps are the readings of
    the clock by [get_current_date], [get_current_time] and
    [get_greeting].  The values are computed first, in the order of the
    dict, then substituted in that order. *)
Definition replace_placeholders `{DatetimeFormat} (text : string) (user : json)
    (now now' now'' : datetime) : result string :=
  let current_date := get_current_date now in
  let current_time := get_current_time now' in
  user_name ← get_user_name user;
  let greeting := get_greeting now'' in
  text ← py_replace text "{current_date}" (JStr current_date);
  text ← py_replace text "{current_time}" (JStr current_time);
  text ← py_replace text "{user_name}" user_name;
  py_replace text "{greeting}" (JStr greeting).

End DataCaller.

(** * Vocabulary of the statements

    Predicates in which the properties below are stated, and the small
    worlds on which they are tried. *)

Module StoreSpec.

(** Two worlds that differ at most in their toast logs. *)
Definition same_store (w w' : world) : Prop :=
  files w = files w' ∧ cache w = cache w' ∧ last_modified w = last_modified w'.

Definition demo_doc : json := JObj {[ "ann" := JArr [] ]}.

Definition demo_world : world :=
  mkWorld {[ TASKS_FILE := mkFile (Parses demo_doc) 1 ]}
          {[ TASKS_FILE := demo_doc ]}
          {[ TASKS_FILE := 1 ]}
          [].

(** The cache answers without reading the file. *)
Definition cache_hit (filepath : string) (w : world) : Prop :=
  ∃ f, files w !! filepath = Some f
       ∧ is_Some (cache w !! filepath)
       ∧ last_modified w !! filepath = Some (f_mtime f).

Definition corrupt_world : world :=
  mkWorld {[ NOTES_FILE := mkFile Garbled 7 ]} ∅ ∅ [].

End StoreSpec.

Module TimeSpec.

(** The instants of the contract's examples, all on one day. *)
Definition at_time (h m : Z) : datetime := mkDatetime 738000 h m 0 0.

(** The hour and minute that forms 1 and 2 read from a normalised text,
    form 1 first, with the meridiem already applied. *)
Definition clock_fields (text : string) : option (Z * Z) :=
  match Pattern.search Pattern.form1_at text with
  | Some (g1, g2, period) =>
      let h := int g1 in
      Some (if String.eqb period "pm" && negb (h =? 12) then h + 12
            else if String.eqb period "am" && (h =? 12) then 0
            else h,
            match g2 with Some g => int g | None => 0 end)
  | None =>
      match Pattern.search Pattern.form2_at text with
      | Some (g1, g2) => Some (int g1, int g2)
      | None => None
      end
  end.

End TimeSpec.

Module CallingSpec.

(** A cache entry that is served for [filepath] holds what the file
    holds.  Loads and saves that succeed leave the cache so, and so does
    any edit from outside that moves the modification time.  A function
    that changes the document it loaded and then fails to save it does
    not: the cached object carries the change, the file does not. *)
Definition coherent (filepath : string) (w : world) : Prop :=
  ∀ f d, files w !! filepath = Some f →
         cache w !! filepath = Some d →
         last_modified w !! filepath = Some (f_mtime f) →
         f_content f = Parses d.

(** The file at [filepath] holds the mapping [m]; no file stands for
    the empty mapping. *)
Definition stored (filepath : string) (m : gmap string json) (w : world) : Prop :=
  match files w !! filepath with
  | Some f => f_content f = Parses (JObj m)
  | None => m = ∅
  end.

(** The file at [filepath] holds the mapping [m], no file standing for
    the empty mapping, and the cache is coherent there: [m] is then the
    document that a load returns. *)
Inductive holds (filepath : string) (m : gmap string json) (w : world) : Prop :=
  | holds_absent :
      files w !! filepath = None → m = ∅ → holds filepath m w
  | holds_file (t : Z) :
      files w !! filepath = Some (mkFile (Parses (JObj m)) t) →
      coherent filepath w → holds filepath m w.

(** What a save leaves on the disk, by outcome. *)
Definition disk_after (filepath : string) (doc : json) (o : write_outcome)
    (before : world) : gmap string file :=
  match o with
  | Written t => <[filepath := mkFile (Parses doc) t]> (files before)
  | OpenDenied | OpenFailed => files before
  | DumpFailed t rest => <[filepath := mkFile rest t]> (files before)
  end.

(** Every item is a record and none has the id, read with
    [record.get('id')]. *)
Definition tasks_without (id : string) (items : list json) : Prop :=
  Forall (λ r, ∃ mr, r = JObj mr ∧ eq_str (dict_get mr "id" JNull) id = false) items.



Definition task (id time : string) (completed notified : bool) : json :=
  JObj (list_to_map [("id", JStr id); ("reason", JStr "call home");
                     ("time", JStr time); ("created", JStr "2024-01-01T08:00:00");
                     ("completed", JBool completed); ("notified", JBool notified)]).

Definition note (id title : string) : json :=
  JObj (list_to_map [("id", JStr id); ("title", JStr title);
                     ("content", JStr ""); ("timestamp", JStr "2024-01-01T08:00:00");
                     ("date_display", JStr "January 01, 2024 at 08:00 AM")]).

Definition ann_tasks : list json :=
  [task "t1" "2024-01-01T09:00:00" false false;
   task "t2" "2024-01-01T10:00:00" true false;
   task "t3" "soon" false false;
   task "t4" "2024-01-01T18:00:00" false false;
   task "t5" "2024-01-01T09:30:00" false true;
   task "t6" "2024-01-01T12:00:00" false false].

Definition tasks_doc : gmap string json := {[ "ann" := JArr ann_tasks ]}.
Definition notes_doc : gmap string json := {[ "ann" := JArr [note "n1" "shopping"] ]}.

Definition store_world : world :=
  mkWorld {[ TASKS_FILE := mkFile (Parses (JObj tasks_doc)) 1;
             NOTES_FILE := mkFile (Parses (JObj notes_doc)) 1 ]} ∅ ∅ [].

Definition noon : datetime := mkDatetime 738886 12 0 0 0.


Definition is_record (v : json) : Prop := ∃ mr, v = JObj mr.

(** The test of the loop on one record: neither flag is truthy (a
    missing flag counts as [False]) and the time is due. *)
Definition is_pending `{DatetimeFormat} (task : json) (now : datetime) : bool :=
  match task with
  | JObj mr =>
      negb (truthy (dict_get mr "completed" (JBool false)))
      && negb (truthy (dict_get mr "notified" (JBool false)))
      && TaskChecker.due task now
  | _ => false
  end.

(** The user's preference record, empty when there is none. *)
Definition record_of (m : gmap string json) (user_id : string) : gmap string json :=
  match m !! user_id with
  | Some (JObj r) => r
  | _ => ∅
  end.

Definition prefs_doc : gmap string json :=
  {[ "ann" := JObj {[ "theme" := JStr "dark" ]};
     "bob" := JObj {[ "tutorial_shown" := JBool true ]} ]}.

Definition prefs_world : world :=
  mkWorld {[ USER_PREFS_FILE := mkFile (Parses (JObj prefs_doc)) 1 ]} ∅ ∅ [].

End CallingSpec.

Module MatchSpec.

Import SequenceMatcher.

Definition within (alo ahi blo bhi : Z) (x : block) : Prop :=
  alo <= x.1.1 ∧ x.1.1 + x.2 <= ahi ∧ blo <= x.1.2 ∧ x.1.2 + x.2 <= bhi ∧ 0 <= x.2.

(** The lengths recorded for row [i] start inside the ranges. *)
Definition row_within (alo blo bhi i : Z) (m : gmap Z Z) : Prop :=
  ∀ j k, m !! j = Some k → 1 <= k ∧ alo <= i - k + 1 ∧ blo <= j - k + 1 ∧ j < bhi.

Definition total (blocks : list block) : Z := fold_right Z.add 0 (size <$> blocks).

Definition range : Type := Z * Z * Z * Z.

Definition range_ok (r : range) : Prop := r.1.1.1 <= r.1.1.2 ∧ r.1.2 <= r.2.

(** Rounds that a range can still cost, and the elements of [a] and
    of [b] it can still contribute. *)
Definition cost (q : list range) : Z :=
  fold_right (λ r acc, 2 * (r.1.1.2 - r.1.1.1) + 1 + acc) 0 q.
Definition room_a (q : list range) : Z :=
  fold_right (λ r acc, r.1.1.2 - r.1.1.1 + acc) 0 q.
Definition room_b (q : list range) : Z :=
  fold_right (λ r acc, r.2 - r.1.2 + acc) 0 q.

(** The indices of [s], counted from [i], that hold [c]. *)
Fixpoint positions (c : ascii) (i : Z) (s : list ascii) : list Z :=
  match s with
  | [] => []
  | x :: r => if decide (x = c) then i :: positions c (i + 1) r
              else positions c (i + 1) r
  end.

Section Diagonal.

Variable s : list ascii.
Variable b2j : gmap ascii (list Z).

(** The indices that row [i] visits. *)
Definition row_js (i : Z) : list Z :=
  match item s i with
  | Some elt => default [] (b2j !! elt)
  | None => []
  end.

(** The element at [i] has an entry, that is, is not popular. *)
Definition np (i : Z) : bool :=
  match row_js i with [] => false | _ => true end.

(** The number of consecutive elements with an entry that end at [t]:
    the length that the diagonal cell of row [t] gets. *)
Fixpoint run_nat (t : nat) : Z :=
  if np (Z.of_nat t)
  then match t with O => 1 | S t' => run_nat t' + 1 end
  else 0.

Definition runZ (t : Z) : Z := if t <? 0 then 0 else run_nat (Z.to_nat t).

(** The lengths recorded for row [i] do not exceed the diagonal's. *)
Definition row_bounded (i : Z) (m : gmap Z Z) : Prop :=
  ∀ j k, m !! j = Some k → k <= runZ i ∧ k <= runZ j.

End Diagonal.

End MatchSpec.

(** * Further vocabulary *)

Module StoreMoreSpec.

(** Two worlds that show the same file, cache entry and recorded
    modification time at one path. *)
Definition agree_at (filepath : string) (w w' : world) : Prop :=
  files w !! filepath = files w' !! filepath
  ∧ cache w !! filepath = cache w' !! filepath
  ∧ last_modified w !! filepath = last_modified w' !! filepath.

(** A world in which the cache holds an older document than the disk,
    under the file's current modification time. *)
Definition stale_world : world :=
  mkWorld {[ NOTES_FILE := mkFile (Parses (JObj {[ "ann" := JArr [] ]})) 3 ]}
          {[ NOTES_FILE := JObj ∅ ]}
          {[ NOTES_FILE := 3 ]}
          [].

End StoreMoreSpec.

Module TimeMoreSpec.

(** A timestamp that [datetime] can hold. *)
Definition datetime_wf (d : datetime) : Prop :=
  1 <= ordinal d <= MAXORDINAL ∧ 0 <= hour d < 24 ∧ 0 <= minute d < 60
  ∧ 0 <= second d < 60 ∧ 0 <= microsecond d < 1000000.

(** Seconds, and microseconds, since the midnight before day 1. *)
Definition to_seconds (d : datetime) : Z :=
  ordinal d * 86400 + hour d * 3600 + minute d * 60 + second d.

Definition to_micros (d : datetime) : Z := to_seconds d * 1000000 + microsecond d.

(** What form 3 reads from a normalised text that forms 1 and 2 do not
    match: the digits of the amount, and the seconds in one unit. *)
Definition relative_delay (text : string) : option (string * Z) :=
  match Pattern.search Pattern.form1_at text, Pattern.search Pattern.form2_at text with
  | None, None =>
      match Pattern.search Pattern.form3_at text with
      | Some (g1, unit) =>
          if String.eqb unit "minute" || String.eqb unit "min" then Some (g1, 60)
          else if String.eqb unit "hour" || String.eqb unit "hr" then Some (g1, 3600)
          else None
      | None => None
      end
  | _, _ => None
  end.

(** A text that asks for a delay of [n] nines, in minutes. *)
Definition in_nines_min (n : nat) : string :=
  "in " ++ string_of_list_ascii (repeat "9"%char n) ++ " min".

Definition a_monday_morning : datetime := mkDatetime 738886 9 15 30 250000.

End TimeMoreSpec.

Module CallingMoreSpec.

Import CallingSpec.

(** The record that [create_task] builds. *)
Definition created_task `{DatetimeFormat} (new_id reason : string)
    (target_time created : datetime) : json :=
  JObj (list_to_map
    [("id", JStr new_id);
     ("reason", JStr reason);
     ("time", JStr (isoformat target_time));
     ("created", JStr (isoformat created));
     ("completed", JBool false);
     ("notified", JBool false)]).



(** Every item is a record with an id. *)
Definition all_have_id (items : list json) : Prop :=
  Forall (λ r, ∃ mr x, r = JObj mr ∧ mr !! "id" = Some x) items.


(** The flag that each of the two marking functions sets. *)
Inductive mark : Type := Notified | Completed.

Definition flag_of (k : mark) : string :=
  match k with Notified => "notified" | Completed => "completed" end.

Definition mark_task (k : mark) : string → string → write_outcome → M unit :=
  match k with
  | Notified => TaskChecker.mark_task_notified
  | Completed => TaskChecker.mark_task_completed
  end.

(** The files at [filepath] are what a save of the mapping [m] leaves,
    and [filepath] holds [m] when the save succeeded. *)
Definition saved (filepath : string) (m : gmap string json) (o : write_outcome)
    (w w' : world) : Prop :=
  files w' = disk_after filepath (JObj m) o w
  ∧ ∀ t, o = Written t → holds filepath m w'.



(** Ann's tasks of [tasks_doc] before the last one, and the fields of the
    last one. *)
Definition before_t6 : list json :=
  [task "t1" "2024-01-01T09:00:00" false false;
   task "t2" "2024-01-01T10:00:00" true false;
   task "t3" "soon" false false;
   task "t4" "2024-01-01T18:00:00" false false;
   task "t5" "2024-01-01T09:30:00" false true].

Definition t6_fields : gmap string json :=
  list_to_map [("id", JStr "t6"); ("reason", JStr "call home");
               ("time", JStr "2024-01-01T12:00:00");
               ("created", JStr "2024-01-01T08:00:00");
               ("completed", JBool false); ("notified", JBool false)].

End CallingMoreSpec.

Module TextMoreSpec.

Import TypeWriterLabel.

(** The states of a label that its own methods lead to, whatever the
    texts and whichever events the clock fires. *)
Inductive reachable {char : Type} : label char → Prop :=
  | reach_init : reachable init
  | reach_start (t : list char) (l : label char) :
      reachable l → reachable (start_animation t l)
  | reach_fire (e : nat) (l : label char) :
      reachable l → reachable (fire e l).

(** The clock fires [e] [n] times in a row. *)
Definition fire_times {char : Type} (n e : nat) (l : label char) : label char :=
  Nat.iter n (fire e) l.

(** Whether the character occurs in the string. *)
Fixpoint has_char (c : ascii) (s : string) : bool :=
  match s with
  | EmptyString => false
  | String x r => Ascii.eqb x c || has_char c r
  end.

End TextMoreSpec.

(** * Properties of the cached store *)

Module StoreFacts.

Import StoreSpec.

Lemma same_store_toast (msg : string) (w : world) :
  same_store w (show_error_toast msg w).
Proof. by repeat split. Qed.

Lemma cache_get_same_store (filepath : string) (w w' : world) :
  same_store w w' →
  fst (DataCache.get filepath w) = fst (DataCache.get filepath w')
  ∧ same_store (snd (DataCache.get filepath w)) (snd (DataCache.get filepath w')).
Proof.
  intros (Hf & Hc & Hl). unfold DataCache.get, DataCache.read_file.
  rewrite <- Hf, <- Hc, <- Hl.
  destruct (files w !! filepath) as [f|]; [|by repeat split].
  destruct (cache w !! filepath) as [d|];
    [case_bool_decide; [by repeat split|]|];
    destruct (f_content f); simpl; unfold same_store; simpl;
    rewrite ?Hf, ?Hc, ?Hl; by repeat split.
Qed.

(** The toast log is write-only: a load does not read it. *)
Lemma load_same_store (filepath : string) (default : json) (w w' : world) :
  same_store w w' →
  fst (safe_load_json filepath default w) = fst (safe_load_json filepath default w')
  ∧ same_store (snd (safe_load_json filepath default w))
               (snd (safe_load_json filepath default w')).
Proof.
  intros Hs. unfold safe_load_json.
  destruct (cache_get_same_store filepath w w' Hs) as [Hv Hw].
  destruct (DataCache.get filepath w) as [d w1].
  destruct (DataCache.get filepath w') as [d' w1'].
  simpl in Hv, Hw. subst d'. destruct Hw as (Hf & Hc & Hl).
  destruct d; try by repeat split.
  rewrite <- Hf. destruct (files w1 !! filepath) as [f|]; [|by repeat split].
  destruct (f_content f); simpl; unfold same_store; simpl;
    rewrite ?Hf, ?Hc, ?Hl; by repeat split.
Qed.

(** A file that parses and is not in the cache is read from disk. *)
Lemma load_uncached (filepath : string) (default data : json) (t : Z) (w : world) :
  files w !! filepath = Some (mkFile (Parses data) t) →
  cache w !! filepath = None →
  fst (safe_load_json filepath default w) = (data, Shared)
  ∧ files (snd (safe_load_json filepath default w)) = files w
  ∧ cache (snd (safe_load_json filepath default w)) !! filepath = Some data
  ∧ last_modified (snd (safe_load_json filepath default w)) !! filepath = Some t.
Proof.
  intros Hf Hc. unfold safe_load_json, DataCache.get, DataCache.read_file.
  rewrite Hf, Hc. simpl.
  destruct data; simpl; rewrite ?Hf; simpl;
    repeat split; by rewrite ?lookup_insert_eq.
Qed.

Lemma save_succeeds_iff (filepath : string) (data : json) (o : write_outcome) (w : world) :
  fst (safe_save_json filepath data o w) = true ↔ ∃ t, o = Written t.
Proof.
  destruct o; simpl; split; intros H; try discriminate; eauto;
    by destruct H as [? ?].
Qed.

(** C6. Read-after-write: when [safe_save_json filepath data] succeeds,
    the cache entry for [filepath] is gone, the file holds [data], and
    the next [safe_load_json filepath] returns exactly [data], read from
    disk and cached again. *)
Theorem read_after_write
    (filepath : string) (data default : json) (o : write_outcome) (w : world) :
  fst (safe_save_json filepath data o w) = true →
  let w' := snd (safe_save_json filepath data o w) in
  f_content <$> files w' !! filepath = Some (Parses data)
  ∧ cache w' !! filepath = None
  ∧ last_modified w' !! filepath = None
  ∧ fst (safe_load_json filepath default w') = (data, Shared)
  ∧ cache (snd (safe_load_json filepath default w')) !! filepath = Some data.
Proof.
  intros Hok. apply save_succeeds_iff in Hok as [t ->]. simpl.
  split; [by rewrite lookup_insert_eq|].
  split; [apply lookup_delete_eq|]. split; [apply lookup_delete_eq|].
  edestruct (load_uncached filepath default data t) as (Hv & _ & Hc & _);
    [| |split; [exact Hv|exact Hc]]; simpl.
  - apply lookup_insert_eq.
  - apply lookup_delete_eq.
Qed.

Lemma read_after_write_witness :
  fst (safe_load_json TASKS_FILE JNull
         (snd (safe_save_json TASKS_FILE (JObj ∅) (Written 1) demo_world)))
  = (JObj ∅, Shared).
Proof.
  exact (proj1 (proj2 (proj2 (proj2
    (read_after_write TASKS_FILE (JObj ∅) JNull (Written 1) demo_world eq_refl))))).
Defined.

(** A failed save never touches the two cache maps. *)
Lemma failed_save_keeps_cache
    (filepath : string) (data : json) (o : write_outcome) (w : world) :
  fst (safe_save_json filepath data o w) = false →
  cache (snd (safe_save_json filepath data o w)) = cache w
  ∧ last_modified (snd (safe_save_json filepath data o w)) = last_modified w.
Proof. destruct o; simpl; intros H; try discriminate; by split. Qed.

(** C2, amended. When [safe_save_json] fails, no cache entry is evicted;
    when the failure is raised by [open] itself (permission denied or
    another error at open), the files are untouched and the next
    [safe_load_json] returns what it would have returned before the
    save. *)
Theorem failed_put_at_open_preserves
    (filepath : string) (data default : json) (o : write_outcome) (w : world) :
  fst (safe_save_json filepath data o w) = false →
  let w' := snd (safe_save_json filepath data o w) in
  cache w' = cache w
  ∧ last_modified w' = last_modified w
  ∧ (o = OpenDenied ∨ o = OpenFailed →
     files w' = files w
     ∧ fst (safe_load_json filepath default w')
       = fst (safe_load_json filepath default w)).
Proof.
  intros Hfail. simpl.
  destruct (failed_save_keeps_cache filepath data o w Hfail) as [Hc Hl].
  split; [exact Hc|]. split; [exact Hl|].
  intros [-> | ->]; simpl; (split; [done|]);
    symmetry; apply load_same_store, same_store_toast.
Qed.

Lemma failed_put_at_open_preserves_witness :
  files (snd (safe_save_json TASKS_FILE (JObj ∅) OpenDenied demo_world))
  = files demo_world
  ∧ fst (safe_load_json TASKS_FILE JNull
           (snd (safe_save_json TASKS_FILE (JObj ∅) OpenDenied demo_world)))
    = fst (safe_load_json TASKS_FILE JNull demo_world).
Proof.
  exact (proj2 (proj2
    (failed_put_at_open_preserves TASKS_FILE (JObj ∅) JNull OpenDenied demo_world
       eq_refl)) (or_introl eq_refl)).
Defined.

(** C2 as stated fails: [open] has truncated the file when [json.dump]
    raises.  Here the disk fills up before the first byte is written:
    the save reports failure, the old document is gone from the disk,
    and the next load falls back to the default instead of the old
    document. *)
Lemma failed_put_may_truncate :
  let r := safe_save_json TASKS_FILE (JObj ∅) (DumpFailed 2 Garbled) demo_world in
  fst r = false
  ∧ f_content <$> files demo_world !! TASKS_FILE = Some (Parses demo_doc)
  ∧ f_content <$> files (snd r) !! TASKS_FILE = Some Garbled
  ∧ fst (fst (safe_load_json TASKS_FILE (JObj ∅) demo_world)) = demo_doc
  ∧ fst (fst (safe_load_json TASKS_FILE (JObj ∅) (snd r))) = JObj ∅
  ∧ demo_doc ≠ JObj ∅.
Proof.
  repeat split; by vm_compute.
Qed.

Lemma or_empty_truthy (default : json) :
  truthy default = true → or_empty default = default.
Proof. unfold or_empty. by intros ->. Qed.

Lemma or_empty_none : or_empty JNull = JObj ∅ ∧ or_empty (JObj ∅) = JObj ∅.
Proof. by split. Qed.

(** A corrupt file that the cache does not shadow: two toasts, and the
    fallback value. *)
Lemma corrupt_load_eq (filepath : string) (default : json) (f : file) (w : world) :
  files w !! filepath = Some f →
  f_content f = Garbled →
  ¬ cache_hit filepath w →
  safe_load_json filepath default w
  = ((or_empty default, Fresh),
     show_error_toast ("Invalid JSON: " ++ basename filepath)
       (show_error_toast ("Cache load error: " ++ basename filepath) w)).
Proof.
  intros Hf Hg Hmiss.
  assert (Hget : DataCache.get filepath w
                 = (JNull, show_error_toast ("Cache load error: " ++ basename filepath) w)).
  { unfold DataCache.get, DataCache.read_file. rewrite Hf, Hg.
    destruct (cache w !! filepath) as [d|] eqn:Hc; [|done].
    case_bool_decide as Hl; [|done].
    exfalso. apply Hmiss. exists f. by rewrite Hc. }
  unfold safe_load_json. rewrite Hget. simpl. by rewrite Hf, Hg.
Qed.

(** C5, amended. When the file exists, does not parse, and the cache
    holds no entry carrying the file's current modification time,
    [safe_load_json] toasts the condition (once from [DataCache.get],
    once from its own handler), leaves files and both cache maps as they
    were, and returns [default if default else {}]: the caller's default
    when it is truthy, an empty mapping for [None] and [{}]. *)
Theorem corrupt_document_load
    (filepath : string) (default : json) (f : file) (w : world) :
  files w !! filepath = Some f →
  f_content f = Garbled →
  ¬ cache_hit filepath w →
  let r := safe_load_json filepath default w in
  fst r = (or_empty default, Fresh)
  ∧ (truthy default = true → fst (fst r) = default)
  ∧ (default = JNull ∨ default = JObj ∅ → fst (fst r) = JObj ∅)
  ∧ files (snd r) = files w
  ∧ cache (snd r) = cache w
  ∧ last_modified (snd r) = last_modified w
  ∧ toasts (snd r)
    = (toasts w ++ ["Cache load error: " ++ basename filepath;
                    "Invalid JSON: " ++ basename filepath]%string)%list.
Proof.
  intros Hf Hg Hmiss. simpl.
  rewrite (corrupt_load_eq filepath default f w Hf Hg Hmiss). simpl.
  repeat split.
  - apply or_empty_truthy.
  - by intros [-> | ->].
  - by rewrite <- app_assoc.
Qed.

Lemma corrupt_world_miss : ¬ cache_hit NOTES_FILE corrupt_world.
Proof. intros (f & _ & [d Hd] & _). by vm_compute in Hd. Qed.

Lemma corrupt_document_load_witness :
  fst (safe_load_json NOTES_FILE (JArr [JNum 1]) corrupt_world)
  = (or_empty (JArr [JNum 1]), Fresh).
Proof.
  exact (proj1 (corrupt_document_load NOTES_FILE (JArr [JNum 1])
                  (mkFile Garbled 7) corrupt_world eq_refl eq_refl
                  corrupt_world_miss)).
Defined.

(** C5 as stated fails for a falsy default: a caller that supplies the
    empty list gets an empty mapping back. *)
Lemma corrupt_load_drops_falsy_default :
  files corrupt_world !! NOTES_FILE = Some (mkFile Garbled 7)
  ∧ fst (fst (safe_load_json NOTES_FILE (JArr []) corrupt_world)) = JObj ∅
  ∧ JObj ∅ ≠ JArr [].
Proof. repeat split; by vm_compute. Qed.

(** After a corrupt read, a repaired file is read again: the failed
    read left nothing in the cache that could shadow it. *)
Lemma load_after_repair
    (filepath : string) (default data : json) (f : file) (t : Z) (w : world) :
  files w !! filepath = Some f →
  f_content f = Garbled →
  cache w !! filepath = None →
  let w1 := snd (safe_load_json filepath default w) in
  let w2 := set_files (<[filepath := mkFile (Parses data) t]> (files w1)) w1 in
  fst (safe_load_json filepath default w2) = (data, Shared).
Proof.
  intros Hf Hg Hc.
  assert (Hmiss : ¬ cache_hit filepath w).
  { intros (? & _ & [d Hd] & _). by rewrite Hc in Hd. }
  simpl. rewrite (corrupt_load_eq filepath default f w Hf Hg Hmiss). simpl.
  apply (load_uncached filepath default data t); simpl; [apply lookup_insert_eq|done].
Qed.

End StoreFacts.

(** * Properties of the time parser *)

Module TimeFacts.

Import TimeSpec.

Example parse_5pm_at_14 : parse "5pm" (at_time 14 0) = Ok (Some (at_time 17 0)).
Proof. reflexivity. Qed.

Example parse_5pm_at_18 :
  parse "5pm" (at_time 18 0) = Ok (Some (mkDatetime 738001 17 0 0 0)).
Proof. reflexivity. Qed.

Example parse_1730_at_10 : parse "17:30" (at_time 10 0) = Ok (Some (at_time 17 30)).
Proof. reflexivity. Qed.

Example parse_in_2_hours :
  parse "in 2 hours" (mkDatetime 738000 23 10 5 77)
  = Ok (Some (mkDatetime 738001 1 10 5 77)).
Proof. reflexivity. Qed.

Example parse_nonsense : parse "nonsense" (at_time 14 0) = Ok None.
Proof. reflexivity. Qed.

(** Hour 12 is midnight with "am" and noon with "pm"; text around the
    time and capitals do not matter. *)
Example parse_12am : parse "12am" (at_time 14 0) = Ok (Some (mkDatetime 738001 0 0 0 0)).
Proof. reflexivity. Qed.

Example parse_12pm : parse "12pm" (at_time 10 0) = Ok (Some (at_time 12 0)).
Proof. reflexivity. Qed.

Example parse_in_a_sentence :
  parse "  Remind me at 5:30 PM please " (at_time 14 0) = Ok (Some (at_time 17 30)).
Proof. reflexivity. Qed.

(** Form 1 wins over form 2, and form 2 over form 3. *)
Example parse_priority :
  parse "in 5 minutes, 17:30 or 6pm" (at_time 14 0) = Ok (Some (at_time 18 0))
  ∧ parse "in 5 minutes or 17:30" (at_time 14 0) = Ok (Some (at_time 17 30)).
Proof. split; reflexivity. Qed.

Lemma parse_clock_fields (text : string) (now now' : datetime) (h m : Z) :
  clock_fields (strip (lower text)) = Some (h, m) →
  parse_time_input text now now' = today_or_tomorrow h m now now'.
Proof.
  unfold clock_fields, parse_time_input.
  destruct (Pattern.search Pattern.form1_at _) as [[[g1 g2] period]|].
  - by intros [= <- <-].
  - destruct (Pattern.search Pattern.form2_at _) as [[g1 g2]|]; [|done].
    by intros [= <- <-].
Qed.

Lemma replace_time_in_range (dt : datetime) (h m : Z) :
  0 <= h <= 23 → 0 <= m <= 59 →
  replace_time dt h m = Ok (mkDatetime (ordinal dt) h m 0 0).
Proof.
  intros Hh Hm. unfold replace_time.
  replace (0 <=? h) with true by (symmetry; apply Z.leb_le; lia).
  replace (h <=? 23) with true by (symmetry; apply Z.leb_le; lia).
  replace (0 <=? m) with true by (symmetry; apply Z.leb_le; lia).
  replace (m <=? 59) with true by (symmetry; apply Z.leb_le; lia).
  reflexivity.
Qed.

Lemma replace_time_out_of_range (dt : datetime) (h m : Z) :
  23 < h ∨ 59 < m → replace_time dt h m = Raise ValueError.
Proof.
  intros H. unfold replace_time.
  destruct (0 <=? h); [|done]. simpl.
  destruct (Z.leb_spec h 23); simpl; [|done].
  destruct (0 <=? m); [|done]. simpl.
  destruct (Z.leb_spec m 59); [lia|done].
Qed.

(** One day later: the next ordinal, the same time of day. *)
Lemma add_one_day (d h m : Z) :
  0 < d + 1 <= MAXORDINAL → 0 <= h <= 23 → 0 <= m <= 59 →
  add_days (mkDatetime d h m 0 0) 1 = Ok (mkDatetime (d + 1) h m 0 0).
Proof.
  intros Hd Hh Hm. unfold add_days, add_seconds.
  cbn [ordinal hour minute second microsecond].
  set (t := h * 3600 + m * 60).
  assert (Ht : 0 <= t < 86400) by (unfold t; lia).
  assert (Hq : t / 3600 = h).
  { symmetry. apply (Z.div_unique t 3600 h (m * 60)); unfold t; lia. }
  assert (Hr : t mod 3600 = m * 60).
  { symmetry. apply (Z.mod_unique t 3600 h (m * 60)); unfold t; lia. }
  replace (t + 0 + 1 * 86400) with (t + 1 * 86400) by lia.
  rewrite Z.div_add, Z.mod_add by lia.
  rewrite (Z.div_small t), (Z.mod_small t) by lia.
  rewrite Hq, Hr, Z.div_mul, Z.mod_mul by lia.
  replace (d + (0 + 1)) with (d + 1) by lia.
  destruct (Z.ltb_spec 0 (d + 1)); [|lia].
  destruct (Z.leb_spec (d + 1) MAXORDINAL); [|lia].
  reflexivity.
Qed.

(** *** What the groups of a match hold *)

Lemma int_acc_nonneg (s : string) (acc : Z) :
  all_digits s = true → 0 <= acc → 0 <= int_acc s acc.
Proof.
  revert acc. induction s as [|c r IH]; intros acc Hd Hacc; simpl in *; [done|].
  apply andb_prop in Hd as [Hc Hr]. apply IH; [done|].
  unfold is_digit in Hc. apply andb_prop in Hc as [Hlo _].
  apply Nat.leb_le in Hlo. lia.
Qed.

Lemma int_nonneg (s : string) : all_digits s = true → 0 <= int s.
Proof. intros H. by apply int_acc_nonneg. Qed.

Lemma minutes_meridiem_groups (s : string) (g2 : option string) (p : string) :
  Pattern.minutes_meridiem s = Some (g2, p) →
  (∀ g, g2 = Some g → all_digits g = true) ∧ (p = "am" ∨ p = "pm").
Proof.
  assert (Hmer : ∀ r q, Pattern.spaces_meridiem r = Some q → q = "am" ∨ q = "pm").
  { intros r q. unfold Pattern.spaces_meridiem, Pattern.meridiem.
    repeat case_match; intros [= <-]; auto. }
  assert (Hwo : (λ q, (None, q)) <$> Pattern.spaces_meridiem s = Some (g2, p) →
     (∀ g, g2 = Some g → all_digits g = true) ∧ (p = "am" ∨ p = "pm")).
  { destruct (Pattern.spaces_meridiem s) as [q|] eqn:E; simpl; intros [= <- <-].
    split; [by intros ? [=]|by eapply Hmer]. }
  unfold Pattern.minutes_meridiem.
  destruct s as [|c [|d1 [|d2 r]]]; try exact Hwo.
  destruct (Ascii.eqb c ":" && is_digit d1 && is_digit d2) eqn:Hc; [|exact Hwo].
  destruct (Pattern.spaces_meridiem r) as [q|] eqn:E; [|exact Hwo].
  intros [= <- <-]. split; [|by eapply Hmer].
  intros g [= <-]. simpl.
  apply andb_prop in Hc as [Hc H2]. apply andb_prop in Hc as [_ H1].
  by rewrite H1, H2.
Qed.

Lemma form1_at_groups (s g1 : string) (g2 : option string) (p : string) :
  Pattern.form1_at s = Some (g1, g2, p) →
  all_digits g1 = true
  ∧ (∀ g, g2 = Some g → all_digits g = true) ∧ (p = "am" ∨ p = "pm").
Proof.
  unfold Pattern.form1_at.
  destruct s as [|h1 r1]; [done|].
  destruct (is_digit h1) eqn:H1; [|done].
  assert (Hone : (λ '(m, q), (String h1 "", m, q)) <$> Pattern.minutes_meridiem r1
                 = Some (g1, g2, p) →
     all_digits g1 = true
     ∧ (∀ g, g2 = Some g → all_digits g = true) ∧ (p = "am" ∨ p = "pm")).
  { destruct (Pattern.minutes_meridiem r1) as [[m q]|] eqn:E; simpl; intros [= <- <- <-].
    split; [simpl; by rewrite H1|by eapply minutes_meridiem_groups]. }
  destruct r1 as [|h2 r2]; [exact Hone|].
  destruct (is_digit h2) eqn:H2; [|exact Hone].
  destruct (Pattern.minutes_meridiem r2) as [[m q]|] eqn:E; [|exact Hone].
  intros [= <- <- <-].
  split; [simpl; by rewrite H1, H2|by eapply minutes_meridiem_groups].
Qed.

Lemma search_some {G : Type} (at_head : string → option G) (s : string) (g : G) :
  Pattern.search at_head s = Some g → ∃ s', at_head s' = Some g.
Proof.
  induction s as [|c r IH]; simpl; destruct (at_head _) eqn:E;
    intros H; simplify_eq; eauto.
Qed.

Lemma colon_minutes_group (s g : string) :
  Pattern.colon_minutes s = Some g → all_digits g = true.
Proof.
  unfold Pattern.colon_minutes.
  destruct s as [|c [|d1 [|d2 r]]]; try done.
  destruct (Ascii.eqb c ":" && is_digit d1 && is_digit d2) eqn:Hc; [|done].
  intros [= <-]. simpl.
  apply andb_prop in Hc as [Hc H2]. apply andb_prop in Hc as [_ H1].
  by rewrite H1, H2.
Qed.

Lemma form2_at_groups (s g1 g2 : string) :
  Pattern.form2_at s = Some (g1, g2) →
  all_digits g1 = true ∧ all_digits g2 = true.
Proof.
  unfold Pattern.form2_at.
  destruct s as [|h1 r1]; [done|].
  destruct (is_digit h1) eqn:H1; [|done].
  assert (Hone : (λ m, (String h1 "", m)) <$> Pattern.colon_minutes r1 = Some (g1, g2) →
                 all_digits g1 = true ∧ all_digits g2 = true).
  { destruct (Pattern.colon_minutes r1) as [m|] eqn:E; simpl; intros [= <- <-].
    split; [simpl; by rewrite H1|by eapply colon_minutes_group]. }
  destruct r1 as [|h2 r2]; [exact Hone|].
  destruct (is_digit h2) eqn:H2; [|exact Hone].
  destruct (Pattern.colon_minutes r2) as [m|] eqn:E; [|exact Hone].
  intros [= <- <-].
  split; [simpl; by rewrite H1, H2|by eapply colon_minutes_group].
Qed.

(** The fields read by forms 1 and 2 are never negative. *)
Lemma clock_fields_nonneg (text : string) (h m : Z) :
  clock_fields text = Some (h, m) → 0 <= h ∧ 0 <= m.
Proof.
  unfold clock_fields.
  destruct (Pattern.search Pattern.form1_at text) as [[[g1 g2] p]|] eqn:E1.
  - apply search_some in E1 as [s' E1].
    apply form1_at_groups in E1 as (Hg1 & Hg2 & _).
    apply int_nonneg in Hg1. intros [= <- <-]. split.
    + repeat case_match; lia.
    + destruct g2 as [g|]; [apply int_nonneg; by apply Hg2|lia].
  - destruct (Pattern.search Pattern.form2_at text) as [[g1 g2]|] eqn:E2; [|done].
    apply search_some in E2 as [s' E2].
    apply form2_at_groups in E2 as [Hg1 Hg2].
    intros [= <- <-]. split; by apply int_nonneg.
Qed.

Lemma datetime_ltb_irrefl (d : datetime) : datetime_ltb d d = false.
Proof. unfold datetime_ltb. rewrite !Z.eqb_refl. apply Z.ltb_irrefl. Qed.

(** C4, amended. For a text matched by form 1 or form 2 whose hour (the
    meridiem applied) is at most 23 and whose minute is at most 59, and a
    [now] before the last day of the calendar: [parse] returns today at
    that hour and minute, seconds and microseconds zero, when this is at
    or after [now], a timestamp equal to [now] included; and exactly one
    day later when it is strictly before [now]. *)
Theorem clock_forms_today_or_tomorrow
    (text : string) (now : datetime) (h m : Z) :
  clock_fields (strip (lower text)) = Some (h, m) →
  h <= 23 → m <= 59 →
  0 <= ordinal now < MAXORDINAL →
  let today := mkDatetime (ordinal now) h m 0 0 in
  let tomorrow := mkDatetime (ordinal now + 1) h m 0 0 in
  (datetime_ltb today now = true → parse text now = Ok (Some tomorrow))
  ∧ (datetime_ltb today now = false → parse text now = Ok (Some today))
  ∧ (today = now → parse text now = Ok (Some now)).
Proof.
  intros Hcf Hh Hm Hord today tomorrow.
  destruct (clock_fields_nonneg _ _ _ Hcf) as [Hh0 Hm0].
  assert (Hp : parse text now
               = if datetime_ltb today now then Ok (Some tomorrow)
                 else Ok (Some today)).
  { unfold parse. rewrite (parse_clock_fields text now now h m Hcf).
    unfold today_or_tomorrow. rewrite replace_time_in_range by lia.
    fold today. destruct (datetime_ltb today now); [|done].
    unfold today. rewrite add_one_day by lia. done. }
  rewrite Hp. repeat split.
  - by intros ->.
  - by intros ->.
  - intros Heq. rewrite Heq, datetime_ltb_irrefl. done.
Qed.

Lemma clock_forms_today_or_tomorrow_witness :
  parse "5:30 PM" (at_time 18 0) = Ok (Some (mkDatetime 738001 17 30 0 0)).
Proof.
  apply (clock_forms_today_or_tomorrow "5:30 PM" (at_time 18 0) 17 30);
    [reflexivity|lia|lia|simpl; unfold MAXORDINAL; lia|reflexivity].
Defined.

(** C4 as stated fails at equality: asked for "5pm" at 17:00:00.000000
    sharp, the parser answers that very instant, which is not strictly
    after [now], and not the next day. *)
Lemma parse_equal_to_now_not_rolled :
  let now := at_time 17 0 in
  clock_fields (strip (lower "5pm")) = Some (17, 0)
  ∧ parse "5pm" now = Ok (Some now)
  ∧ datetime_ltb now now = false
  ∧ parse "5pm" now ≠ Ok (Some (mkDatetime (ordinal now + 1) 17 0 0 0)).
Proof. repeat split; by vm_compute. Qed.

(** *** Exceptions that leave the parser *)

(** A matched form 1 or form 2 with an hour above 23 or a minute above
    59 raises [ValueError] out of [parse_time_input]. *)
Lemma clock_fields_out_of_range (text : string) (now now' : datetime) (h m : Z) :
  clock_fields (strip (lower text)) = Some (h, m) →
  23 < h ∨ 59 < m →
  parse_time_input text now now' = Raise ValueError.
Proof.
  intros Hcf Hr. rewrite (parse_clock_fields text now now' h m Hcf).
  unfold today_or_tomorrow. by rewrite replace_time_out_of_range.
Qed.

(** C1, at the failing input: "25:00" is matched by form 2, and
    [replace(hour=25, ...)] raises [ValueError], which nothing in
    [parse_time_input] catches, whatever the clock reads. *)
Theorem parse_25_00_raises (now now' : datetime) :
  parse_time_input "25:00" now now' = Raise ValueError.
Proof. by apply (clock_fields_out_of_range _ _ _ 25 0); [|left]. Qed.

Example parse_17_30pm_raises (now now' : datetime) :
  parse_time_input "17:30pm" now now' = Raise ValueError.
Proof. by apply (clock_fields_out_of_range _ _ _ 29 30); [|left]. Qed.

Example parse_huge_delay_raises :
  parse "in 99999999999 minutes" (at_time 14 0) = Raise OverflowError.
Proof. reflexivity. Qed.

(** What does hold of C1: a text that none of the three patterns matches
    gives [None], without raising. *)
Lemma parse_unrecognized (text : string) (now now' : datetime) :
  Pattern.search Pattern.form1_at (strip (lower text)) = None →
  Pattern.search Pattern.form2_at (strip (lower text)) = None →
  Pattern.search Pattern.form3_at (strip (lower text)) = None →
  parse_time_input text now now' = Ok None.
Proof. intros H1 H2 H3. unfold parse_time_input. by rewrite H1, H2, H3. Qed.

End TimeFacts.

(** * Properties of the task, note and preference stores *)

Module CallingFacts.

Import CallingSpec.

(** *** The persisted document *)

Lemma load_holds (filepath : string) (m : gmap string json) (w : world) :
  holds filepath m w →
  ∃ org w1,
    run (load_json filepath (JObj ∅)) w = (Ok (JObj m, org), w1)
    ∧ files w1 = files w
    ∧ toasts w1 = toasts w.
Proof.
  unfold run, load_json, safe_load_json, DataCache.get, DataCache.read_file.
  intros [Hf -> | t Hf Hco].
  - rewrite Hf. simpl. rewrite Hf. by exists Fresh, w.
  - rewrite Hf. simpl.
    destruct (cache w !! filepath) as [d|] eqn:Hc.
    + case_bool_decide as Hl.
      * pose proof (Hco _ _ Hf Hc Hl) as Hd. simpl in Hd.
        injection Hd as <-. by exists Shared, w.
      * eexists Shared, _. simpl. by repeat split.
    + eexists Shared, _. simpl. by repeat split.
Qed.

Lemma stored_holds (filepath : string) (m : gmap string json) (w : world) :
  stored filepath m w → coherent filepath w → holds filepath m w.
Proof.
  unfold stored. destruct (files w !! filepath) as [[c t]|] eqn:Hf.
  - simpl. intros -> Hco. by apply (holds_file _ _ _ t).
  - intros -> _. by apply holds_absent.
Qed.

(** *** Running the steps of a call *)

Lemma bind_ok {A B : Type} (c : M A) (k : A → M B) (a : A) (w w' : world) :
  c w = (Ok a, w') → (c ≫= k) w = k a w'.
Proof. unfold mbind, M_bind. by intros ->. Qed.

Lemma bind_raise {A B : Type} (c : M A) (k : A → M B) (e : pyexc) (w w' : world) :
  c w = (Raise e, w') → (c ≫= k) w = (Raise e, w').
Proof. unfold mbind, M_bind. by intros ->. Qed.

Lemma mutated_files (filepath : string) (org : origin) (d : json) (w : world) :
  files (mutated filepath org d w) = files w.
Proof. by destruct org. Qed.

Lemma save_disk_after (filepath : string) (doc : json) (o : write_outcome) (w : world) :
  files (snd (save_json filepath doc o w)) = disk_after filepath doc o w.
Proof. by destruct o. Qed.


(** *** Records and their ids *)




(** *** Marking or rewriting a record that is not there *)



(** *** A small store *)

Lemma store_world_coherent (filepath : string) : coherent filepath store_world.
Proof. intros f d _ Hc. simpl in Hc. by rewrite lookup_empty in Hc. Defined.

Lemma store_world_tasks : holds TASKS_FILE tasks_doc store_world.
Proof. apply (holds_file _ _ _ 1); [by vm_compute|apply store_world_coherent]. Defined.

Lemma store_world_notes : holds NOTES_FILE notes_doc store_world.
Proof. apply (holds_file _ _ _ 1); [by vm_compute|apply store_world_coherent]. Defined.



(** *** Creating a task from a text that is no time *)

(** C9. When the time parser rejects the text, [create_task] returns
    the failure pair with its explanation and the world is exactly as
    before: no file, no cache entry and no toast has changed, so no
    task, whole or partial, has been persisted. *)
Theorem create_task_unparseable `{DatetimeFormat}
    (user_id reason time_str : string) (now now' created : datetime)
    (new_id : string) (o : write_outcome) (w : world) :
  parse_time_input time_str now now' = Ok None →
  TaskChecker.create_task user_id reason time_str now now' created new_id o w
  = (Ok (false, TaskChecker.unparseable_message), w).
Proof.
  intros Hp. unfold TaskChecker.create_task, lift, mbind, M_bind.
  by rewrite Hp.
Qed.

Lemma create_task_unparseable_witness :
  TaskChecker.create_task (H := Calendar.python_format)
    "ann" "call home" "nonsense" noon noon noon "id-1" (Written 9) store_world
  = (Ok (false, TaskChecker.unparseable_message), store_world).
Proof.
  apply (create_task_unparseable (H := Calendar.python_format)).
  vm_compute. reflexivity.
Defined.

(** *** Pending tasks *)

Lemma scan_records `{DatetimeFormat} (items : list json) (now : datetime) :
  Forall is_record items →
  TaskChecker.scan items now = Ok (List.filter (λ t, is_pending t now) items).
Proof.
  induction 1 as [|r l [mr ->] _ IH]; [done|].
  cbn [TaskChecker.scan List.filter is_pending py_get].
  unfold mbind, result_bind, mret, result_ret. rewrite IH.
  destruct (truthy (dict_get mr "completed" _)); [done|].
  destruct (truthy (dict_get mr "notified" _)); [done|].
  simpl. by destruct (TaskChecker.due _ _).
Qed.

Lemma due_spec `{DatetimeFormat} (mr : gmap string json) (now : datetime) :
  TaskChecker.due (JObj mr) now = true
  ↔ ∃ s t, mr !! "time" = Some (JStr s) ∧ fromisoformat s = Some t
           ∧ datetime_leb t now = true.
Proof.
  unfold TaskChecker.due, py_getitem. split.
  - destruct (mr !! "time") as [[| | |s| |]|]; try done.
    destruct (fromisoformat s) as [t|] eqn:Ht; [|done]. eauto.
  - intros (s & t & -> & -> & Hle). done.
Qed.

(** C8, amended. When the file holds a mapping in which the user's
    entry is absent or a sequence of records, and the cache holds no copy
    of the file that differs from it (a coherent cache, as every load and
    every successful save leave it), [get_pending_tasks] returns, in
    stored order, exactly the stored records whose [completed] and
    [notified] are both false (or missing) and whose time reads as a
    timestamp at or before [now]; a record whose time does not read is
    left out and the scan goes on; nothing on the disk changes. *)
Theorem pending_tasks_exact `{DatetimeFormat}
    (user_id : string) (now : datetime) (m : gmap string json)
    (l : list json) (w : world) :
  stored TASKS_FILE m w →
  coherent TASKS_FILE w →
  dict_get m user_id (JArr []) = JArr l →
  Forall is_record l →
  let r := TaskChecker.get_pending_tasks user_id now w in
  fst r = Ok (List.filter (λ t, is_pending t now) l)
  ∧ files (snd r) = files w
  ∧ ∀ mr, In (JObj mr) (List.filter (λ t, is_pending t now) l)
          ↔ In (JObj mr) l
            ∧ truthy (dict_get mr "completed" (JBool false)) = false
            ∧ truthy (dict_get mr "notified" (JBool false)) = false
            ∧ ∃ s t, mr !! "time" = Some (JStr s) ∧ fromisoformat s = Some t
                     ∧ datetime_leb t now = true.
Proof.
  intros Hst Hco Hl Hrec. pose proof (stored_holds _ _ _ Hst Hco) as Hh.
  destruct (load_holds _ _ _ Hh) as (org & w1 & Hload & Hf & _).
  assert (Hr : TaskChecker.get_pending_tasks user_id now w
               = (Ok (List.filter (λ t, is_pending t now) l), w1)).
  { unfold TaskChecker.get_pending_tasks.
    rewrite (bind_ok _ _ _ _ _ Hload). simpl.
    unfold lift, mbind, M_bind, py_get. rewrite Hl. simpl.
    by rewrite scan_records. }
  simpl. rewrite Hr. simpl. split; [done|]. split; [done|].
  intros mr. rewrite filter_In. cbn [is_pending].
  rewrite !andb_true_iff, !negb_true_iff, due_spec. tauto.
Qed.

Lemma ann_tasks_records : Forall is_record ann_tasks.
Proof. repeat (apply Forall_cons; split; [by eexists|]). apply Forall_nil. done. Defined.

Lemma pending_tasks_exact_witness :
  fst (TaskChecker.get_pending_tasks (H := Calendar.python_format) "ann" noon store_world)
  = Ok (List.filter (λ t, is_pending (H := Calendar.python_format) t noon) ann_tasks).
Proof.
  apply (pending_tasks_exact (H := Calendar.python_format)
           "ann" noon tasks_doc ann_tasks store_world).
  - by vm_compute.
  - apply store_world_coherent.
  - vm_compute. reflexivity.
  - apply ann_tasks_records.
Defined.

(** C8 as stated fails after a save that failed.  Marking "t1" as
    notified changes the document in the cache; the write is denied, so
    the file still holds "t1" neither completed nor notified and due
    before noon.  The next scan serves the cached document and leaves
    "t1" out. *)
Lemma stale_cache_hides_pending_task :
  let w1 := snd (TaskChecker.mark_task_notified "ann" "t1" OpenDenied store_world) in
  let pending := List.filter (λ t, is_pending (H := Calendar.python_format) t noon) in
  stored TASKS_FILE tasks_doc w1
  ∧ dict_get tasks_doc "ann" (JArr []) = JArr ann_tasks
  ∧ pending ann_tasks = [task "t1" "2024-01-01T09:00:00" false false;
                         task "t6" "2024-01-01T12:00:00" false false]
  ∧ fst (TaskChecker.get_pending_tasks (H := Calendar.python_format) "ann" noon w1)
    = Ok [task "t6" "2024-01-01T12:00:00" false false]
  ∧ fst (TaskChecker.get_pending_tasks (H := Calendar.python_format) "ann" noon w1)
    ≠ Ok (pending ann_tasks).
Proof. repeat split; by vm_compute. Qed.

(** Of the six tasks, the completed one, the one whose time does not
    read, the one due in the evening and the notified one are left
    out; the one due at noon sharp is in. *)
Example pending_at_noon :
  fst (TaskChecker.get_pending_tasks (H := Calendar.python_format) "ann" noon store_world)
  = Ok [task "t1" "2024-01-01T09:00:00" false false;
        task "t6" "2024-01-01T12:00:00" false false].
Proof. vm_compute. reflexivity. Qed.

(** *** The cache after a failed save *)

(** The document that a function mutates is the object in the cache.
    When the save then fails, the file keeps the old document and the
    cache the new one: here the task marked as notified is still pending
    on the disk, but no longer for the running process. *)
Example failed_save_leaves_mutation_in_cache :
  let w1 := snd (TaskChecker.get_pending_tasks (H := Calendar.python_format)
                   "ann" noon store_world) in
  let w2 := snd (TaskChecker.mark_task_notified "ann" "t1" OpenDenied w1) in
  files w2 = files store_world
  ∧ fst (TaskChecker.get_pending_tasks (H := Calendar.python_format) "ann" noon w1)
    = Ok [task "t1" "2024-01-01T09:00:00" false false;
          task "t6" "2024-01-01T12:00:00" false false]
  ∧ fst (TaskChecker.get_pending_tasks (H := Calendar.python_format) "ann" noon w2)
    = Ok [task "t6" "2024-01-01T12:00:00" false false].
Proof. repeat split; by vm_compute. Qed.

(** *** The tutorial flag *)

(** C10, amended. When the preferences file holds a mapping in which
    the user's entry is absent or a record, and the cache holds no copy
    of the file that differs from it (a coherent cache, as every load and
    every successful save leave it), [mark_tutorial_complete] saves a
    mapping that differs from the stored one only in [tutorial_shown] of
    that user's record, which is true: every other key of the record and
    every other user's entry are as before, and the record is created
    when absent.  No other file is written. *)
Theorem mark_tutorial_complete_frame
    (user_id : string) (m : gmap string json) (o : write_outcome) (w : world) :
  stored USER_PREFS_FILE m w →
  coherent USER_PREFS_FILE w →
  (∀ v, m !! user_id = Some v → is_record v) →
  ∃ m' r' w',
    TutorialManager.mark_tutorial_complete user_id o w = (Ok tt, w')
    ∧ files w' = disk_after USER_PREFS_FILE (JObj m') o w
    ∧ (∀ u, u ≠ user_id → m' !! u = m !! u)
    ∧ m' !! user_id = Some (JObj r')
    ∧ r' !! "tutorial_shown" = Some (JBool true)
    ∧ (∀ k, k ≠ "tutorial_shown" → r' !! k = record_of m user_id !! k).
Proof.
  intros Hst Hco Hrec. pose proof (stored_holds _ _ _ Hst Hco) as Hh.
  destruct (load_holds _ _ _ Hh) as (org & w1 & Hload & Hf & _).
  set (r' := <["tutorial_shown" := JBool true]> (record_of m user_id)).
  set (m' := <[user_id := JObj r']> m).
  assert (Hrun : ∃ w', TutorialManager.mark_tutorial_complete user_id o w = (Ok tt, w')
                       ∧ files w' = disk_after USER_PREFS_FILE (JObj m') o w1).
  { unfold TutorialManager.mark_tutorial_complete.
    rewrite (bind_ok _ _ _ _ _ Hload). simpl.
    unfold lift, run, mbind, M_bind, mret, M_ret, py_getitem.
    unfold m', r', record_of.
    destruct (m !! user_id) as [v|] eqn:Hv.
    - destruct (Hrec v eq_refl) as [r ->]. rewrite Hv. simpl.
      destruct (save_json _ _ o _) as [b w'] eqn:Hs. eexists. split; [done|].
      change w' with (snd (b, w')). rewrite <- Hs, save_disk_after.
      destruct o; simpl; by rewrite ?mutated_files.
    - rewrite lookup_insert_eq. simpl. rewrite insert_insert_eq.
      destruct (save_json _ _ o _) as [b w'] eqn:Hs. eexists. split; [done|].
      change w' with (snd (b, w')). rewrite <- Hs, save_disk_after.
      destruct o; simpl; by rewrite ?mutated_files. }
  destruct Hrun as (w' & Hrun & Hfiles).
  exists m', r', w'. repeat split.
  - exact Hrun.
  - rewrite Hfiles. destruct o; simpl; by rewrite Hf.
  - intros u Hu. unfold m'. by rewrite lookup_insert_ne.
  - unfold m'. by rewrite lookup_insert_eq.
  - unfold r'. by rewrite lookup_insert_eq.
  - intros k Hk. unfold r'. by rewrite lookup_insert_ne.
Qed.


Lemma mark_tutorial_complete_frame_witness :
  ∃ m' r' w',
    TutorialManager.mark_tutorial_complete "ann" (Written 2) prefs_world = (Ok tt, w')
    ∧ files w' = disk_after USER_PREFS_FILE (JObj m') (Written 2) prefs_world
    ∧ (∀ u, u ≠ "ann" → m' !! u = prefs_doc !! u)
    ∧ m' !! "ann" = Some (JObj r')
    ∧ r' !! "tutorial_shown" = Some (JBool true)
    ∧ (∀ k, k ≠ "tutorial_shown" → r' !! k = record_of prefs_doc "ann" !! k).
Proof.
  apply (mark_tutorial_complete_frame "ann" prefs_doc (Written 2) prefs_world).
  - by vm_compute.
  - intros f d _ Hc. simpl in Hc. by rewrite lookup_empty in Hc.
  - intros v Hv. vm_compute in Hv. injection Hv as <-. by eexists.
Defined.

(** C10 as stated fails after a save that failed.  Marking the
    tutorial for "cat" puts a record for "cat" into the cached document;
    the write is denied, so the preferences file has no entry for "cat".
    The next call, for "ann", saves the cached document: the file gets
    the record of "cat" as well, an entry of another user that the prior
    file did not have. *)
Lemma stale_cache_breaks_frame :
  let w1 := snd (TutorialManager.mark_tutorial_complete "cat" OpenDenied prefs_world) in
  let r := TutorialManager.mark_tutorial_complete "ann" (Written 2) w1 in
  stored USER_PREFS_FILE prefs_doc w1
  ∧ prefs_doc !! "cat" = None
  ∧ fst r = Ok tt
  ∧ stored USER_PREFS_FILE
      (<["cat" := JObj {[ "tutorial_shown" := JBool true ]}]>
         (<["ann" := JObj {[ "theme" := JStr "dark"; "tutorial_shown" := JBool true ]}]>
            prefs_doc))
      (snd r)
  ∧ (<["cat" := JObj {[ "tutorial_shown" := JBool true ]}]>
       (<["ann" := JObj {[ "theme" := JStr "dark"; "tutorial_shown" := JBool true ]}]>
          prefs_doc)) !! "cat"
    = Some (JObj {[ "tutorial_shown" := JBool true ]}).
Proof. repeat split; by vm_compute. Qed.

Example mark_tutorial_complete_on_disk :
  f_content <$> files (snd (TutorialManager.mark_tutorial_complete "ann" (Written 2)
                              prefs_world)) !! USER_PREFS_FILE
  = Some (Parses (JObj
      {[ "ann" := JObj {[ "theme" := JStr "dark"; "tutorial_shown" := JBool true ]};
         "bob" := JObj {[ "tutorial_shown" := JBool true ]} ]})).
Proof. vm_compute. reflexivity. Qed.

Example first_time_until_marked :
  let w' := snd (TutorialManager.mark_tutorial_complete "ann" (Written 2) prefs_world) in
  fst (TutorialManager.is_first_time "ann" prefs_world) = Ok true
  ∧ fst (TutorialManager.is_first_time "ann" w') = Ok false
  ∧ fst (TutorialManager.is_first_time "bob" w') = Ok false
  ∧ fst (TutorialManager.is_first_time "cat" w') = Ok true.
Proof. repeat split; by vm_compute. Qed.

End CallingFacts.

(** * Properties of the text matcher *)

Module MatchFacts.

Import MatchSpec.

Import SequenceMatcher.

(** *** The longest match lies within the ranges it is asked for *)

Section Bounds.

Variables a b : list ascii.
Variable b2j : gmap ascii (list Z).

Lemma scan_row_within (alo ahi blo bhi i : Z) (j2len : gmap Z Z) (js : list Z) :
  alo <= i < ahi →
  row_within alo blo bhi (i - 1) j2len →
  ∀ new best,
    row_within alo blo bhi i new →
    within alo ahi blo bhi best →
    row_within alo blo bhi i (scan_row blo bhi i j2len js new best).1
    ∧ within alo ahi blo bhi (scan_row blo bhi i j2len js new best).2.
Proof.
  intros Hi Hprev. induction js as [|j rest IH]; intros new best Hnew Hbest; [done|].
  simpl. destruct (Z.ltb_spec j blo); [by apply IH|].
  destruct (Z.leb_spec bhi j); [done|].
  set (k := default 0 (j2len !! (j - 1)) + 1).
  assert (Hk : 1 <= k ∧ alo <= i - k + 1 ∧ blo <= j - k + 1).
  { unfold k. destruct (j2len !! (j - 1)) as [k'|] eqn:Hj; simpl; [|lia].
    destruct (Hprev _ _ Hj) as (? & ? & ? & ?). lia. }
  apply IH.
  - intros j' k'. destruct (decide (j = j')) as [<-|Hne].
    + rewrite lookup_insert_eq. intros [= <-]. lia.
    + rewrite lookup_insert_ne by done. apply Hnew.
  - destruct (size best <? k); [|done]. unfold within. simpl. lia.
Qed.

Lemma scan_rows_within (alo ahi blo bhi : Z) (n : nat) :
  ∀ i j2len best,
    alo <= i → i + Z.of_nat n <= ahi →
    row_within alo blo bhi (i - 1) j2len →
    within alo ahi blo bhi best →
    within alo ahi blo bhi (scan_rows a b2j blo bhi n i j2len best).
Proof.
  induction n as [|n IH]; intros i j2len best Hlo Hhi Hrow Hbest; [done|].
  simpl.
  set (js := match item a i with Some elt => default [] (b2j !! elt) | None => [] end).
  destruct (scan_row_within alo ahi blo bhi i j2len js ltac:(lia) Hrow ∅ best)
    as [Hrow' Hbest']; [by intros ? ? ?|done|].
  destruct (scan_row blo bhi i j2len js ∅ best) as [new best'].
  apply IH; [lia|lia| |done].
  by replace (i + 1 - 1) with i by lia.
Qed.

Lemma extend_back_within (alo ahi blo bhi : Z) (n : nat) (best : block) :
  within alo ahi blo bhi best →
  within alo ahi blo bhi (extend_back a b alo blo n best).
Proof.
  revert best. induction n as [|n IH]; intros [[i j] k] H; [done|].
  simpl. destruct (Z.ltb_spec alo i); [|done].
  destruct (Z.ltb_spec blo j); [|done]. simpl.
  case_bool_decide; [|done]. apply IH.
  unfold within in *. simpl in *. lia.
Qed.

Lemma extend_forward_within (alo ahi blo bhi : Z) (n : nat) (best : block) :
  within alo ahi blo bhi best →
  within alo ahi blo bhi (extend_forward a b ahi bhi n best).
Proof.
  revert best. induction n as [|n IH]; intros [[i j] k] H; [done|].
  simpl. destruct (Z.ltb_spec (i + k) ahi); [|done].
  destruct (Z.ltb_spec (j + k) bhi); [|done]. simpl.
  case_bool_decide; [|done]. apply IH.
  unfold within in *. simpl in *. lia.
Qed.

(** The two extension loops are given steps enough: they stop because
    their condition fails. *)
Lemma extend_back_exit (alo blo : Z) (n : nat) :
  ∀ best, best.1.1 - alo <= Z.of_nat n →
    let r := extend_back a b alo blo n best in
    (alo <? r.1.1) && (blo <? r.1.2)
    && bool_decide (item a (r.1.1 - 1) = item b (r.1.2 - 1)) = false.
Proof.
  induction n as [|n IH]; intros [[i j] k] Hn; simpl in Hn.
  - simpl. destruct (Z.ltb_spec alo i); [lia|done].
  - cbn [extend_back].
    destruct ((alo <? i) && (blo <? j)
              && bool_decide (item a (i - 1) = item b (j - 1))) eqn:Hc; [|done].
    apply IH. simpl. lia.
Qed.

Lemma extend_forward_exit (ahi bhi : Z) (n : nat) :
  ∀ best, ahi - (best.1.1 + best.2) <= Z.of_nat n →
    let r := extend_forward a b ahi bhi n best in
    (r.1.1 + r.2 <? ahi) && (r.1.2 + r.2 <? bhi)
    && bool_decide (item a (r.1.1 + r.2) = item b (r.1.2 + r.2)) = false.
Proof.
  induction n as [|n IH]; intros [[i j] k] Hn; simpl in Hn.
  - simpl. destruct (Z.ltb_spec (i + k) ahi); [lia|done].
  - cbn [extend_forward].
    destruct ((i + k <? ahi) && (j + k <? bhi)
              && bool_decide (item a (i + k) = item b (j + k))) eqn:Hc; [|done].
    apply IH. simpl. lia.
Qed.

Lemma find_longest_match_within (alo ahi blo bhi : Z) :
  alo <= ahi → blo <= bhi →
  within alo ahi blo bhi (find_longest_match a b b2j alo ahi blo bhi).
Proof.
  intros Ha Hb. unfold find_longest_match.
  apply extend_forward_within, extend_back_within, scan_rows_within.
  - lia.
  - lia.
  - by intros ? ? ?.
  - unfold within. simpl. lia.
Qed.

End Bounds.

(** *** The loop of [get_matching_blocks] ends, and what it collects *)

Lemma total_snoc (blocks : list block) (x : block) :
  total (blocks ++ [x])%list = total blocks + size x.
Proof.
  unfold total. rewrite fmap_app, foldr_app. simpl.
  induction (size <$> blocks) as [|y l IH]; simpl; lia.
Qed.

Section Loop.

Variables a b : list ascii.
Variable b2j : gmap ascii (list Z).

Lemma cost_nonneg (q : list range) : Forall range_ok q → 0 <= cost q.
Proof.
  induction 1 as [|r q [Hr _] _ IH]; simpl; [lia|]. lia.
Qed.

Lemma matching_loop_spec (fuel : nat) :
  ∀ queue acc,
    Forall range_ok queue →
    cost queue <= Z.of_nat fuel →
    ∃ blocks,
      matching_loop a b b2j fuel queue acc = Some blocks
      ∧ total acc <= total blocks
      ∧ total blocks <= total acc + room_a queue
      ∧ total blocks <= total acc + room_b queue.
Proof.
  induction fuel as [|fuel IH]; intros queue acc Hq Hcost.
  - destruct queue as [|[[[alo ahi] blo] bhi] q].
    + exists acc. simpl. repeat split; lia.
    + apply Forall_cons in Hq as [[Hr _] Hq]. pose proof (cost_nonneg q Hq).
      simpl in *. lia.
  - destruct queue as [|[[[alo ahi] blo] bhi] q].
    + exists acc. simpl. repeat split; lia.
    + apply Forall_cons in Hq as [[Ha Hb] Hq]. simpl in Ha, Hb.
      pose proof (find_longest_match_within a b b2j alo ahi blo bhi Ha Hb) as Hw.
      cbn [matching_loop].
      destruct (find_longest_match a b b2j alo ahi blo bhi) as [[i j] k].
      unfold within in Hw. simpl in Hw, Hcost.
      destruct (Z.eqb_spec k 0) as [->|Hk].
      * destruct (IH q acc Hq ltac:(lia)) as (blocks & -> & ? & ? & ?).
        exists blocks. simpl. repeat split; lia.
      * set (q1 := if (alo <? i) && (blo <? j) then (alo, i, blo, j) :: q else q).
        set (q2 := if (i + k <? ahi) && (j + k <? bhi)
                   then (i + k, ahi, j + k, bhi) :: q1 else q1).
        assert (H1 : Forall range_ok q1 ∧ cost q1 <= cost q + 2 * (i - alo) + 1
                     ∧ room_a q1 <= room_a q + (i - alo)
                     ∧ room_b q1 <= room_b q + (j - blo)).
        { unfold q1. destruct ((alo <? i) && (blo <? j)).
          - split; [apply Forall_cons; split; [split; simpl; lia|done]|].
            simpl. lia.
          - split; [done|]. lia. }
        destruct H1 as (Hq1 & Hc1 & Ha1 & Hb1).
        assert (H2 : Forall range_ok q2
                     ∧ cost q2 <= cost q1 + 2 * (ahi - (i + k)) + 1
                     ∧ room_a q2 <= room_a q1 + (ahi - (i + k))
                     ∧ room_b q2 <= room_b q1 + (bhi - (j + k))).
        { unfold q2. destruct ((i + k <? ahi) && (j + k <? bhi)).
          - split; [apply Forall_cons; split; [split; simpl; lia|done]|].
            simpl. lia.
          - split; [done|]. lia. }
        destruct H2 as (Hq2 & Hc2 & Ha2 & Hb2).
        destruct (IH q2 (acc ++ [(i, j, k)])%list Hq2 ltac:(lia))
          as (blocks & -> & Hlo & Hra & Hrb).
        rewrite total_snoc in Hlo, Hra, Hrb. simpl in Hlo, Hra, Hrb.
        exists blocks. simpl. repeat split; lia.
Qed.

End Loop.

(** The matcher returns, and the blocks it returns cover no more than
    either sequence. *)
Lemma get_matching_blocks_total (a b : list ascii) :
  ∃ blocks,
    get_matching_blocks a b = Some blocks
    ∧ 0 <= total blocks
    ∧ total blocks <= Z.of_nat (length a)
    ∧ total blocks <= Z.of_nat (length b).
Proof.
  unfold get_matching_blocks.
  destruct (matching_loop_spec a b (chain_b b) (2 * length a + 1)
              [(0, Z.of_nat (length a), 0, Z.of_nat (length b))] [])
    as (blocks & Hb & Hlo & Hra & Hrb).
  - apply Forall_cons. split; [split; simpl; lia|done].
  - simpl. lia.
  - exists blocks. simpl in *. unfold total in Hlo at 1. simpl in Hlo.
    replace (total []) with 0 in * by done. repeat split; [done|lia..].
Qed.

(** *** What [__chain_b] records *)

Lemma index_elements_lookup (c : ascii) (s : list ascii) :
  ∀ i m,
    index_elements i s m !! c
    = match positions c i s with
      | [] => m !! c
      | js => Some (default [] (m !! c) ++ js)%list
      end.
Proof.
  induction s as [|x r IH]; intros i m; [done|].
  simpl. rewrite IH. destruct (decide (x = c)) as [->|Hne].
  - rewrite lookup_insert_eq. simpl.
    destruct (positions c (i + 1) r); by rewrite <- ?app_assoc.
  - by rewrite lookup_insert_ne.
Qed.

Lemma chain_b_lookup (s : list ascii) (c : ascii) (js : list Z) :
  chain_b s !! c = Some js → js = positions c 0 s.
Proof.
  assert (H : index_elements 0 s ∅ !! c = Some js → js = positions c 0 s).
  { rewrite index_elements_lookup, lookup_empty.
    destruct (positions c 0 s); [done|]. by intros [= <-]. }
  unfold chain_b. destruct (200 <=? Z.of_nat (length s)); [|done].
  intros Hf. apply map_lookup_filter_Some in Hf as [Hf _]. by apply H.
Qed.

Lemma positions_elem (c : ascii) (s : list ascii) :
  ∀ i j, j ∈ positions c i s
         ↔ i <= j ∧ s !! Z.to_nat (j - i) = Some c.
Proof.
  induction s as [|x r IH]; intros i j; simpl.
  - split; [by intros ?%elem_of_nil|]. by intros [_ ?].
  - assert (Hr : j ∈ positions c (i + 1) r
                 ↔ i < j ∧ (x :: r) !! Z.to_nat (j - i) = Some c).
    { rewrite IH. split.
      - intros [Hlt Hl]. split; [lia|].
        replace (Z.to_nat (j - i)) with (S (Z.to_nat (j - (i + 1)))) by lia. done.
      - intros [Hlt Hl]. split; [lia|].
        replace (Z.to_nat (j - i)) with (S (Z.to_nat (j - (i + 1)))) in Hl by lia.
        done. }
    destruct (decide (x = c)) as [->|Hne].
    + rewrite elem_of_cons, Hr. split.
      * intros [-> | [? ?]]; [|split; [lia|done]].
        split; [lia|]. by rewrite Z.sub_diag.
      * intros [Hle Hl]. destruct (decide (j = i)) as [->|]; [by left|].
        right. split; [lia|done].
    + rewrite Hr. split; [intros [? ?]; split; [lia|done]|].
      intros [Hle Hl]. split; [|done].
      destruct (decide (j = i)) as [->|]; [|lia].
      rewrite Z.sub_diag in Hl. simpl in Hl. congruence.
Qed.

Lemma positions_sorted (c : ascii) (s : list ascii) :
  ∀ i, StronglySorted Z.lt (positions c i s).
Proof.
  induction s as [|x r IH]; intros i; simpl; [constructor|].
  destruct (decide (x = c)); [|apply IH].
  constructor; [apply IH|].
  apply Forall_forall. intros j Hj%positions_elem. lia.
Qed.

(** *** A sequence matched against itself *)

Section Diagonal.

Variable s : list ascii.
Variable b2j : gmap ascii (list Z).
Hypothesis b2j_positions : ∀ c js, b2j !! c = Some js → js = positions c 0 s.

Let n : Z := Z.of_nat (length s).

Local Abbreviation row_js := (MatchSpec.row_js s b2j).
Local Abbreviation np := (MatchSpec.np s b2j).
Local Abbreviation run_nat := (MatchSpec.run_nat s b2j).
Local Abbreviation runZ := (MatchSpec.runZ s b2j).
Local Abbreviation row_bounded := (MatchSpec.row_bounded s b2j).

Lemma run_nat_nonneg (t : nat) : 0 <= run_nat t.
Proof. induction t; simpl; destruct (np _); lia. Qed.

Lemma runZ_nonneg (t : Z) : 0 <= runZ t.
Proof. unfold runZ. destruct (t <? 0); [lia|apply run_nat_nonneg]. Qed.

Lemma runZ_zero_neg (t : Z) : t < 0 → runZ t = 0.
Proof. intros Ht. unfold runZ. by destruct (Z.ltb_spec t 0); [|lia]. Qed.

Lemma runZ_step (t : Z) : 0 <= t → np t = true → runZ t = runZ (t - 1) + 1.
Proof.
  intros Ht Hnp. unfold runZ.
  destruct (Z.ltb_spec t 0); [lia|].
  destruct (Z.ltb_spec (t - 1) 0).
  - replace t with 0 in * by lia.
    change (run_nat (Z.to_nat 0)) with (run_nat 0). cbn [run_nat].
    change (Z.of_nat 0) with 0. by rewrite Hnp.
  - replace (Z.to_nat t) with (S (Z.to_nat (t - 1))) by lia.
    cbn [run_nat]. replace (Z.of_nat (S (Z.to_nat (t - 1)))) with t by lia.
    by rewrite Hnp.
Qed.

Lemma runZ_zero (t : Z) : np t = false → runZ t = 0.
Proof.
  intros Hnp. unfold runZ. destruct (Z.ltb_spec t 0); [done|].
  destruct (Z.to_nat t) as [|t'] eqn:E; cbn [run_nat].
  - replace (Z.of_nat 0) with t by lia. by rewrite Hnp.
  - replace (Z.of_nat (S t')) with t by lia. by rewrite Hnp.
Qed.

Lemma row_js_same (i j : Z) : item s j = item s i → row_js j = row_js i.
Proof. unfold row_js. by intros ->. Qed.

Lemma row_js_spec (i : Z) :
  0 <= i < n →
  StronglySorted Z.lt (row_js i)
  ∧ Forall (λ j, 0 <= j < n ∧ item s j = item s i) (row_js i)
  ∧ (np i = true → i ∈ row_js i).
Proof.
  intros Hi. unfold np, row_js, item.
  destruct (s !! Z.to_nat i) as [c|] eqn:Hc;
    [|split; [constructor|split; [constructor|done]]].
  destruct (b2j !! c) as [js|] eqn:Hjs; simpl;
    [|split; [constructor|split; [constructor|done]]].
  rewrite (b2j_positions _ _ Hjs). split; [apply positions_sorted|]. split.
  - apply Forall_forall. intros j [Hj Hl]%positions_elem.
    rewrite Z.sub_0_r in Hl. split; [|done].
    apply lookup_lt_Some in Hl. unfold n. lia.
  - intros _. apply positions_elem. split; [lia|]. by rewrite Z.sub_0_r.
Qed.

Lemma scan_row_diag (i : Z) (j2len : gmap Z Z) :
  0 <= i < n →
  row_bounded (i - 1) j2len →
  default 0 (j2len !! (i - 1)) = runZ (i - 1) →
  ∀ js new best,
    StronglySorted Z.lt js →
    Forall (λ j, 0 <= j < n ∧ item s j = item s i) js →
    (js ≠ [] → np i = true) →
    best.1.1 = best.1.2 →
    (∀ t, t < i → runZ t <= size best) →
    row_bounded i new →
    (i ∈ js ∧ new !! i = None)
    ∨ (default 0 (new !! i) = runZ i ∧ runZ i <= size best ∧ Forall (Z.lt i) js) →
    let r := scan_row 0 n i j2len js new best in
    r.2.1.1 = r.2.1.2
    ∧ (∀ t, t < i + 1 → runZ t <= size r.2)
    ∧ row_bounded i r.1
    ∧ default 0 (r.1 !! i) = runZ i.
Proof.
  intros Hi Hprev Hdiag.
  induction js as [|j rest IH]; intros new best Hsort Hall Hnp Hbd Hbest Hnew Hcase.
  - simpl. destruct Hcase as [[Hin _]|(Hd & Hle & _)]; [by apply elem_of_nil in Hin|].
    split; [done|]. split; [|by split].
    intros t Ht. destruct (decide (t = i)) as [->|]; [done|]. apply Hbest. lia.
  - apply StronglySorted_inv in Hsort as [Hsort Hgt].
    apply Forall_cons in Hall as [[Hj Hsame] Hall].
    assert (Hnpi : np i = true) by by apply Hnp.
    assert (Hnpj : np j = true) by (unfold np; by rewrite (row_js_same i j)).
    pose proof (runZ_step i ltac:(lia) Hnpi) as Hri.
    pose proof (runZ_step j ltac:(lia) Hnpj) as Hrj.
    pose proof (runZ_nonneg (i - 1)). pose proof (runZ_nonneg (j - 1)).
    cbn [scan_row].
    destruct (Z.ltb_spec j 0); [lia|]. destruct (Z.leb_spec n j); [lia|].
    set (k := default 0 (j2len !! (j - 1)) + 1).
    assert (Hk : k <= runZ i ∧ k <= runZ j).
    { unfold k. destruct (j2len !! (j - 1)) as [k'|] eqn:Hl; simpl; [|lia].
      destruct (Hprev _ _ Hl). lia. }
    assert (Hnew' : row_bounded i (<[j := k]> new)).
    { intros j' k'. destruct (decide (j = j')) as [<-|].
      - rewrite lookup_insert_eq. by intros [= <-].
      - rewrite lookup_insert_ne by done. apply Hnew. }
    destruct (decide (j = i)) as [->|Hji].
    + assert (Hki : k = runZ i) by (unfold k; rewrite Hdiag; lia).
      apply IH; [done|done|by intros _| | |done|].
      * destruct (size best <? k); [done|done].
      * intros t Ht. destruct (Z.ltb_spec (size best) k); [|by apply Hbest].
        simpl. specialize (Hbest t Ht). lia.
      * right. rewrite lookup_insert_eq. simpl. split; [done|]. split; [|done].
        destruct (Z.ltb_spec (size best) k); simpl; lia.
    + assert (Hno : (size best <? k) = false).
      { apply Z.ltb_ge. destruct Hcase as [[Hin _]|(_ & Hle & Hlt)].
        - apply elem_of_cons in Hin as [->|Hin]; [done|].
          rewrite Forall_forall in Hgt. specialize (Hgt _ Hin).
          specialize (Hbest j Hgt). lia.
        - lia. }
      rewrite Hno. apply IH; [done|done|by intros _|done|done|done|].
      destruct Hcase as [[Hin Hn]|(Hd & Hle & Hlt)].
      * left. apply elem_of_cons in Hin as [->|Hin]; [done|].
        split; [done|]. by rewrite lookup_insert_ne.
      * right. rewrite lookup_insert_ne by done.
        apply Forall_cons in Hlt as [_ Hlt]. done.
Qed.

Lemma scan_rows_diag (m : nat) :
  ∀ i j2len best,
    0 <= i → i + Z.of_nat m = n →
    row_bounded (i - 1) j2len →
    default 0 (j2len !! (i - 1)) = runZ (i - 1) →
    best.1.1 = best.1.2 →
    (∀ t, t < i → runZ t <= size best) →
    (scan_rows s b2j 0 n m i j2len best).1.1
    = (scan_rows s b2j 0 n m i j2len best).1.2.
Proof.
  induction m as [|m IH]; intros i j2len best Hi Hn Hprev Hdiag Hbd Hbest; [done|].
  cbn [scan_rows]. fold (row_js i).
  destruct (row_js_spec i ltac:(lia)) as (Hsort & Hall & Hin).
  destruct (scan_row_diag i j2len ltac:(lia) Hprev Hdiag (row_js i) ∅ best)
    as (Hbd' & Hbest' & Hrow' & Hdiag'); try done.
  - unfold np. by destruct (row_js i).
  - destruct (np i) eqn:Hnp.
    + left. split; [by apply Hin|done].
    + right. rewrite lookup_empty, (runZ_zero i Hnp). simpl.
      split; [done|]. split.
      * rewrite <- (runZ_zero i Hnp). destruct (decide (i = 0)) as [->|].
        -- pose proof (Hbest (-1) ltac:(lia)) as H. by rewrite (runZ_zero 0 Hnp).
        -- rewrite (runZ_zero i Hnp).
           pose proof (Hbest (i - 1) ltac:(lia)). pose proof (runZ_nonneg (i - 1)). lia.
      * unfold np in Hnp. destruct (row_js i); [constructor|done].
  - destruct (scan_row 0 n i j2len (row_js i) ∅ best) as [new best'].
    simpl in *. apply IH; try done; [lia|lia| |].
    + by replace (i + 1 - 1) with i by lia.
    + by replace (i + 1 - 1) with i by lia.
Qed.

Lemma extend_back_self (fuel : nat) :
  ∀ p k, Z.of_nat fuel = p →
         extend_back s s 0 0 fuel (p, p, k) = (0, 0, k + p).
Proof.
  induction fuel as [|fuel IH]; intros p k Hp.
  - subst p. simpl. by rewrite Z.add_0_r.
  - cbn [extend_back]. destruct (Z.ltb_spec 0 p); [|lia]. simpl.
    rewrite bool_decide_eq_true_2 by done.
    rewrite IH by lia. f_equal. lia.
Qed.

Lemma extend_forward_self (fuel : nat) :
  ∀ k, 0 <= k → k + Z.of_nat fuel = n →
       extend_forward s s n n fuel (0, 0, k) = (0, 0, n).
Proof.
  induction fuel as [|fuel IH]; intros k Hk Hn.
  - simpl. f_equal. simpl in Hn. lia.
  - cbn [extend_forward]. destruct (Z.ltb_spec (0 + k) n); [|lia]. simpl.
    rewrite bool_decide_eq_true_2 by done.
    apply IH; lia.
Qed.

(** Matched against itself, a sequence is one block. *)
Lemma find_longest_match_self :
  find_longest_match s s b2j 0 n 0 n = (0, 0, n).
Proof.
  unfold find_longest_match.
  pose proof (scan_rows_within s b2j 0 n 0 n (Z.to_nat (n - 0)) 0 ∅ (0, 0, 0)
                ltac:(lia) ltac:(unfold n; lia) ltac:(by intros ? ? ?)
                ltac:(unfold within; simpl; unfold n; lia)) as Hw.
  pose proof (scan_rows_diag (Z.to_nat (n - 0)) 0 ∅ (0, 0, 0)
                ltac:(lia) ltac:(unfold n; lia) ltac:(by intros ? ? ?)) as Hd.
  destruct (scan_rows s b2j 0 n (Z.to_nat (n - 0)) 0 ∅ (0, 0, 0)) as [[p q] k].
  unfold within in Hw. simpl in Hw, Hd.
  rewrite <- Hd; [|by rewrite lookup_empty|done|].
  - simpl. rewrite Z.sub_0_r, extend_back_self by lia. simpl.
    apply extend_forward_self; lia.
  - intros t Ht. simpl. rewrite (runZ_zero_neg t); lia.
Qed.

End Diagonal.

(** *** The ratio *)

Lemma matching_loop_done (a b : list ascii) (b2j : gmap ascii (list Z))
    (fuel : nat) (acc : list block) :
  matching_loop a b b2j fuel [] acc = Some acc.
Proof. by destruct fuel. Qed.

Lemma get_matching_blocks_self (s : list ascii) :
  ∃ blocks, get_matching_blocks s s = Some blocks
            ∧ total blocks = Z.of_nat (length s).
Proof.
  unfold get_matching_blocks.
  replace (2 * length s + 1)%nat with (S (2 * length s)) by lia.
  cbn [matching_loop].
  rewrite (find_longest_match_self s (chain_b s) (chain_b_lookup s)).
  destruct (Z.eqb_spec (Z.of_nat (length s)) 0) as [H0|H0].
  - exists []. by rewrite matching_loop_done, H0.
  - rewrite Z.add_0_l, !Z.ltb_irrefl. simpl.
    exists [(0, 0, Z.of_nat (length s))].
    split; [apply matching_loop_done|]. unfold total. simpl. lia.
Qed.

Lemma calculate_ratio_bounds (matches length : Z) :
  0 <= matches → 2 * matches <= length →
  (0 <= calculate_ratio matches length ∧ calculate_ratio matches length <= 1)%Q.
Proof.
  intros Hm Hl. unfold calculate_ratio.
  destruct (Z.eqb_spec length 0); [done|].
  unfold Qle. simpl. rewrite Z2Pos.id by lia. lia.
Qed.

Lemma calculate_ratio_full (n : Z) : 0 <= n → (calculate_ratio n (n + n) == 1)%Q.
Proof.
  intros Hn. unfold calculate_ratio.
  destruct (Z.eqb_spec (n + n) 0); [done|].
  unfold Qeq. simpl. rewrite Z2Pos.id by lia. lia.
Qed.

Lemma ratio_total (a b : list ascii) :
  ∃ r, ratio a b = Some r ∧ (0 <= r ∧ r <= 1)%Q.
Proof.
  destruct (get_matching_blocks_total a b) as (blocks & Hb & H0 & Ha & Hlb).
  unfold ratio. rewrite Hb. simpl. eexists. split; [done|].
  apply calculate_ratio_bounds; [done|]. fold (total blocks). lia.
Qed.

Lemma ratio_self (s : list ascii) : ∃ r, ratio s s = Some r ∧ (r == 1)%Q.
Proof.
  destruct (get_matching_blocks_self s) as (blocks & Hb & Ht).
  unfold ratio. rewrite Hb. simpl. eexists. split; [done|].
  fold (total blocks). rewrite Ht. apply calculate_ratio_full. lia.
Qed.

(** C7, amended. For all strings [a] and [b], [fuzzy_similarity]
    returns a ratio between 0 and 1; [fuzzy_similarity a a] is 1;
    [fuzzy_match a b threshold] is true exactly when the threshold is at
    most the ratio, equality included; and the default threshold is 0.8.
    (Symmetry is not part of it.) *)
Theorem similarity_properties (a b : string) (threshold : Q) :
  ∃ r ra,
    fuzzy_similarity a b = Some r
    ∧ (0 <= r)%Q ∧ (r <= 1)%Q
    ∧ fuzzy_similarity a a = Some ra ∧ (ra == 1)%Q
    ∧ fuzzy_match a b threshold = Some (Qle_bool threshold r)
    ∧ (fuzzy_match a b threshold = Some true ↔ (threshold <= r)%Q)
    ∧ (default_threshold == 0.8)%Q.
Proof.
  destruct (ratio_total (list_ascii_of_string (lower a)) (list_ascii_of_string (lower b)))
    as (r & Hr & H0 & H1).
  destruct (ratio_self (list_ascii_of_string (lower a))) as (ra & Hra & Hone).
  exists r, ra. unfold fuzzy_match, fuzzy_similarity. rewrite Hr, Hra. simpl.
  repeat split; try done.
  - intros [= H]. by apply Qle_bool_iff.
  - intros H. f_equal. by apply Qle_bool_iff.
Qed.

(** C7 as stated fails on symmetry: the matcher pairs "tide" with
    "diet" on one letter and "diet" with "tide" on two. *)
Lemma similarity_not_symmetric :
  fuzzy_similarity "tide" "diet" = Some (2 # 8)
  ∧ fuzzy_similarity "diet" "tide" = Some (4 # 8)
  ∧ ¬ (2 # 8 == 4 # 8)%Q.
Proof. repeat split; by vm_compute. Qed.

(** A ratio equal to the threshold is a match. *)
Example match_at_threshold :
  fuzzy_similarity "abcde" "abcdx" = Some (8 # 10)
  ∧ fuzzy_match "abcde" "abcdx" default_threshold = Some true
  ∧ fuzzy_match "abcd" "abcx" default_threshold = Some false.
Proof. repeat split; by vm_compute. Qed.

Example similarity_ignores_case : fuzzy_similarity "Hello" "hELLO" = Some (10 # 10).
Proof. by vm_compute. Qed.

End MatchFacts.

(** * More on the cached store *)

Module StoreMore.

Import StoreSpec StoreMoreSpec CallingSpec StoreFacts.

(** *** Loads look at one path only *)

Lemma cache_get_local (filepath : string) (w w' : world) :
  agree_at filepath w w' →
  fst (DataCache.get filepath w) = fst (DataCache.get filepath w')
  ∧ agree_at filepath (snd (DataCache.get filepath w)) (snd (DataCache.get filepath w')).
Proof.
  intros Ha. pose proof Ha as (Hf & Hc & Hl).
  unfold DataCache.get, DataCache.read_file.
  rewrite <- Hf, <- Hc, <- Hl.
  destruct (files w !! filepath) as [f|] eqn:Ef; [|by split].
  destruct (cache w !! filepath) as [d|] eqn:Ec;
    [case_bool_decide; [by split|]|];
    destruct (f_content f); simpl; (split; [done|]); unfold agree_at; simpl;
    rewrite ?lookup_insert_eq; repeat split; congruence.
Qed.

Lemma load_local (filepath : string) (default : json) (w w' : world) :
  agree_at filepath w w' →
  fst (safe_load_json filepath default w) = fst (safe_load_json filepath default w').
Proof.
  intros Ha. unfold safe_load_json.
  destruct (cache_get_local filepath w w' Ha) as [Hv (Hf & Hc & Hl)].
  destruct (DataCache.get filepath w) as [d w1].
  destruct (DataCache.get filepath w') as [d' w1'].
  simpl in *. subst d'. destruct d; try done.
  rewrite <- Hf. destruct (files w1 !! filepath) as [f|]; [|done].
  by destruct (f_content f).
Qed.

Lemma cache_get_files (filepath : string) (w : world) :
  files (snd (DataCache.get filepath w)) = files w.
Proof.
  unfold DataCache.get, DataCache.read_file.
  destruct (files w !! filepath) as [f|]; [|done].
  destruct (cache w !! filepath); [case_bool_decide; [done|]|];
    by destruct (f_content f).
Qed.

Lemma load_files (filepath : string) (default : json) (w : world) :
  files (snd (safe_load_json filepath default w)) = files w.
Proof.
  unfold safe_load_json. pose proof (cache_get_files filepath w) as Hf.
  destruct (DataCache.get filepath w) as [d w1]. simpl in Hf.
  destruct d; try done.
  destruct (files w1 !! filepath) as [f|]; [|done].
  by destruct (f_content f).
Qed.

Lemma cache_get_other (filepath other : string) (w : world) :
  filepath ≠ other →
  cache (snd (DataCache.get filepath w)) !! other = cache w !! other
  ∧ last_modified (snd (DataCache.get filepath w)) !! other = last_modified w !! other.
Proof.
  intros Hne. unfold DataCache.get, DataCache.read_file.
  destruct (files w !! filepath) as [f|]; [|done].
  destruct (cache w !! filepath); [case_bool_decide; [done|]|];
    destruct (f_content f); simpl; by rewrite ?lookup_insert_ne.
Qed.

Lemma load_other (filepath other : string) (default : json) (w : world) :
  filepath ≠ other →
  agree_at other w (snd (safe_load_json filepath default w)).
Proof.
  intros Hne. unfold agree_at. rewrite load_files. split; [done|].
  unfold safe_load_json.
  destruct (cache_get_other filepath other w Hne) as [Hc Hl].
  destruct (DataCache.get filepath w) as [d w1]. simpl in Hc, Hl.
  destruct d; simpl; try by rewrite Hc, Hl.
  destruct (files w1 !! filepath) as [f|]; [|simpl; by rewrite Hc, Hl].
  destruct (f_content f); simpl; by rewrite ?lookup_insert_ne, Hc, Hl.
Qed.

(** *** Missing files, repeated loads, edits from outside *)

(** A missing file is not an error: [safe_load_json] returns
    [default if default else {}] and changes nothing, no toast and no
    cache entry, whatever the cache still holds for the path. *)
Lemma load_missing_file (filepath : string) (default : json) (w : world) :
  files w !! filepath = None →
  safe_load_json filepath default w = ((or_empty default, Fresh), w).
Proof.
  intros Hf. unfold safe_load_json, DataCache.get. rewrite Hf. simpl. by rewrite Hf.
Qed.

Lemma load_missing_file_witness :
  safe_load_json TASKS_FILE (JArr [JNum 1]) stale_world
  = ((or_empty (JArr [JNum 1]), Fresh), stale_world).
Proof. apply (load_missing_file TASKS_FILE (JArr [JNum 1]) stale_world). reflexivity. Defined.

Lemma world_eq (w w' : world) :
  files w = files w' → cache w = cache w' → last_modified w = last_modified w' →
  toasts w = toasts w' → w = w'.
Proof. destruct w, w'. simpl. by intros -> -> -> ->. Qed.

(** What a load of a file that parses leaves behind. *)
Lemma load_parses (filepath : string) (default data : json) (f : file) (w : world) :
  files w !! filepath = Some f →
  f_content f = Parses data →
  ∃ d w1,
    safe_load_json filepath default w = ((d, Shared), w1)
    ∧ files w1 = files w ∧ toasts w1 = toasts w
    ∧ cache w1 !! filepath = Some d
    ∧ last_modified w1 !! filepath = Some (f_mtime f)
    ∧ (d = JNull → data = JNull)
    ∧ (last_modified w !! filepath ≠ Some (f_mtime f) → d = data).
Proof.
  intros Hf Hd. unfold safe_load_json, DataCache.get, DataCache.read_file.
  rewrite Hf, Hd.
  assert (Hread : ∀ w0 : world, files w0 = files w → toasts w0 = toasts w →
    ∃ d w1,
      match data with
      | JNull =>
          match files w0 !! filepath with
          | Some f0 =>
              match f_content f0 with
              | Parses data' =>
                  ((data', Shared),
                   set_last_modified (<[filepath := f_mtime f0]> (last_modified w0))
                     (set_cache (<[filepath := data']> (cache w0)) w0))
              | Garbled =>
                  ((or_empty default, Fresh),
                   show_error_toast ("Invalid JSON: " ++ basename filepath) w0)
              end
          | None => ((or_empty default, Fresh), w0)
          end
      | _ => ((data, Shared), w0)
      end = ((d, Shared), w1)
      ∧ d = data ∧ files w1 = files w ∧ toasts w1 = toasts w
      ∧ (cache w0 !! filepath = Some data →
         last_modified w0 !! filepath = Some (f_mtime f) →
         cache w1 !! filepath = Some data
         ∧ last_modified w1 !! filepath = Some (f_mtime f))).
  { intros w0 Hf0 Ht0.
    destruct data; try (by eexists _, w0);
      rewrite Hf0, Hf, Hd; eexists _, _; split; [done|]; simpl;
      by rewrite !lookup_insert_eq. }
  destruct (cache w !! filepath) as [c|] eqn:Hc.
  - case_bool_decide as Hl.
    + destruct c; try (by eexists _, w; repeat split).
      rewrite Hf, Hd. eexists _, _. split; [done|]. simpl.
      by rewrite !lookup_insert_eq.
    + destruct (Hread (set_last_modified (<[filepath := f_mtime f]> (last_modified w))
                         (set_cache (<[filepath := data]> (cache w)) w)) eq_refl eq_refl)
        as (d & w1 & Heq & -> & Hf1 & Ht1 & Hcl).
      simpl in Hcl. rewrite !lookup_insert_eq in Hcl. destruct (Hcl eq_refl eq_refl).
      exists data, w1. by repeat split.
  - destruct (Hread (set_last_modified (<[filepath := f_mtime f]> (last_modified w))
                       (set_cache (<[filepath := data]> (cache w)) w)) eq_refl eq_refl)
      as (d & w1 & Heq & -> & Hf1 & Ht1 & Hcl).
    simpl in Hcl. rewrite !lookup_insert_eq in Hcl. destruct (Hcl eq_refl eq_refl).
    exists data, w1. by repeat split.
Qed.

(** A cache entry under the file's current modification time is what a
    load returns; for a cached [None] the file is read again. *)
Lemma load_hit (filepath : string) (default d : json) (f : file) (w : world) :
  files w !! filepath = Some f →
  cache w !! filepath = Some d →
  last_modified w !! filepath = Some (f_mtime f) →
  (d = JNull → f_content f = Parses JNull) →
  safe_load_json filepath default w = ((d, Shared), w).
Proof.
  intros Hf Hc Hl Hnull. unfold safe_load_json, DataCache.get.
  rewrite Hf, Hc. simpl. rewrite bool_decide_eq_true_2 by done.
  destruct d; try done.
  rewrite Hf, (Hnull eq_refl). f_equal.
  apply world_eq; simpl; try done; by apply insert_id.
Qed.

(** X1. Loading is idempotent on a file that parses: a second load
    returns the same document and leaves the world, toasts included,
    exactly as the first load left it. *)
Theorem load_twice (filepath : string) (default default' data : json)
    (f : file) (w : world) :
  files w !! filepath = Some f →
  f_content f = Parses data →
  let r := safe_load_json filepath default w in
  safe_load_json filepath default' (snd r) = (fst r, snd r)
  ∧ toasts (snd r) = toasts w.
Proof.
  intros Hf Hd.
  destruct (load_parses filepath default data f w Hf Hd)
    as (d & w1 & Hr & Hf1 & Ht1 & Hc1 & Hl1 & Hnull & _).
  simpl. rewrite Hr. simpl. split; [|done].
  apply (load_hit filepath default' d f w1); try done.
  - by rewrite Hf1.
  - intros Hn. by rewrite Hd, (Hnull Hn).
Qed.

Lemma load_twice_witness :
  let r := safe_load_json NOTES_FILE JNull stale_world in
  safe_load_json NOTES_FILE (JObj ∅) (snd r) = (fst r, snd r)
  ∧ toasts (snd r) = toasts stale_world.
Proof.
  apply (load_twice NOTES_FILE JNull (JObj ∅) (JObj {[ "ann" := JArr [] ]})
           (mkFile (Parses (JObj {[ "ann" := JArr [] ]})) 3) stale_world);
    reflexivity.
Defined.

(** X2. An edit from outside is seen as soon as it moves the
    modification time: when the recorded time differs from the file's (or
    there is none), the load returns what the file holds now and records it
    with the new time, without a toast. *)
Theorem load_sees_new_mtime (filepath : string) (default data : json) (t : Z) (w : world) :
  files w !! filepath = Some (mkFile (Parses data) t) →
  last_modified w !! filepath ≠ Some t →
  let r := safe_load_json filepath default w in
  fst r = (data, Shared)
  ∧ cache (snd r) !! filepath = Some data
  ∧ last_modified (snd r) !! filepath = Some t
  ∧ files (snd r) = files w
  ∧ toasts (snd r) = toasts w.
Proof.
  intros Hf Hl.
  destruct (load_parses filepath default data _ w Hf eq_refl)
    as (d & w1 & Hr & Hf1 & Ht1 & Hc1 & Hl1 & _ & Hmiss).
  simpl in *. rewrite Hr. simpl. rewrite (Hmiss Hl) in *. done.
Qed.

Lemma load_sees_new_mtime_witness :
  fst (safe_load_json NOTES_FILE JNull
         (set_files {[ NOTES_FILE := mkFile (Parses (JObj ∅)) 4 ]} stale_world))
  = (JObj ∅, Shared).
Proof.
  apply (load_sees_new_mtime NOTES_FILE JNull (JObj ∅) 4
           (set_files {[ NOTES_FILE := mkFile (Parses (JObj ∅)) 4 ]} stale_world)).
  - reflexivity.
  - vm_compute. discriminate.
Defined.

(** X3. While the modification time stands, the file is not read: a
    cached document recorded under the file's current time is returned as
    it is and nothing changes, whatever the file holds by now. *)
Theorem load_served_from_cache (filepath : string) (default c : json)
    (f : file) (w : world) :
  files w !! filepath = Some f →
  cache w !! filepath = Some c →
  last_modified w !! filepath = Some (f_mtime f) →
  c ≠ JNull →
  safe_load_json filepath default w = ((c, Shared), w).
Proof. intros Hf Hc Hl Hn. by apply (load_hit filepath default c f w). Qed.

Lemma load_served_from_cache_witness :
  safe_load_json NOTES_FILE JNull stale_world = ((JObj ∅, Shared), stale_world).
Proof.
  apply (load_served_from_cache NOTES_FILE JNull (JObj ∅)
           (mkFile (Parses (JObj {[ "ann" := JArr [] ]})) 3) stale_world);
    [reflexivity|reflexivity|reflexivity|discriminate].
Defined.

(** *** The cache stays coherent *)

Lemma coherent_agree (filepath : string) (w w' : world) :
  agree_at filepath w w' → coherent filepath w → coherent filepath w'.
Proof.
  intros (Hf & Hc & Hl) Hco f d. rewrite <- Hf, <- Hc, <- Hl. apply Hco.
Qed.

(** At its own path a load either changes nothing, or records what it
    has just read from the file. *)
Lemma load_cases (filepath : string) (default : json) (w : world) :
  agree_at filepath w (snd (safe_load_json filepath default w))
  ∨ ∃ f data,
      files w !! filepath = Some f ∧ f_content f = Parses data
      ∧ cache (snd (safe_load_json filepath default w)) !! filepath = Some data
      ∧ last_modified (snd (safe_load_json filepath default w)) !! filepath
        = Some (f_mtime f).
Proof.
  unfold safe_load_json, DataCache.get, DataCache.read_file.
  destruct (files w !! filepath) as [f|] eqn:Hf; [|left; simpl; by rewrite Hf].
  assert (Hins : ∀ data (w0 : world), f_content f = Parses data →
    cache (set_last_modified (<[filepath := f_mtime f]> (last_modified w0))
             (set_cache (<[filepath := data]> (cache w0)) w0)) !! filepath = Some data
    ∧ last_modified (set_last_modified (<[filepath := f_mtime f]> (last_modified w0))
             (set_cache (<[filepath := data]> (cache w0)) w0)) !! filepath
      = Some (f_mtime f)).
  { intros data w0 _. simpl. by rewrite !lookup_insert_eq. }
  destruct (f_content f) as [data|] eqn:Hd.
  - destruct (cache w !! filepath) as [c|] eqn:Hc;
      [case_bool_decide as Hl;
       [destruct c; simpl; rewrite ?Hf, ?Hd; simpl;
        try (left; by repeat split);
        right; exists f, data; by rewrite !lookup_insert_eq|]|];
      right; exists f, data; (split; [done|]); (split; [done|]);
      destruct data; simpl; rewrite ?Hf, ?Hd; simpl; by rewrite !lookup_insert_eq.
  - left. destruct (cache w !! filepath) as [c|] eqn:Hc;
      [case_bool_decide as Hl;
       [destruct c; simpl; rewrite ?Hf, ?Hd; simpl; by repeat split|]|];
      simpl; rewrite Hf, Hd; simpl; by repeat split.
Qed.

(** X4. Loads keep the cache coherent: if the entry that would be served
    for a path holds what the file holds, this is still so after loading
    any path. *)
Theorem load_keeps_coherent (filepath other : string) (default : json) (w : world) :
  coherent other w →
  coherent other (snd (safe_load_json filepath default w)).
Proof.
  intros Hco. destruct (decide (filepath = other)) as [<-|Hne].
  - destruct (load_cases filepath default w) as [Ha|(f & data & Hf & Hd & Hc & Hl)].
    + by apply (coherent_agree filepath w).
    + intros f' d'. rewrite load_files, Hf, Hc. by intros [= <-] [= <-] _.
  - apply (coherent_agree other w); [|done]. by apply load_other.
Qed.

Lemma load_keeps_coherent_witness :
  coherent TASKS_FILE (snd (safe_load_json TASKS_FILE JNull store_world)).
Proof.
  apply (load_keeps_coherent TASKS_FILE TASKS_FILE JNull store_world).
  intros f d _ Hc. simpl in Hc. by rewrite lookup_empty in Hc.
Defined.

Lemma save_agree_other (filepath other : string) (data : json) (o : write_outcome)
    (w : world) :
  filepath ≠ other →
  agree_at other w (snd (safe_save_json filepath data o w)).
Proof.
  intros Hne. destruct o; simpl; unfold agree_at; simpl;
    by rewrite ?lookup_insert_ne, ?lookup_delete_ne.
Qed.

(** X5. A save that succeeds, or that fails at [open], keeps the cache
    coherent at every path; after a successful save the saved path is
    coherent even if it was not before, its entry being gone. *)
Theorem save_keeps_coherent (filepath other : string) (data : json)
    (o : write_outcome) (w : world) :
  (∀ t rest, o ≠ DumpFailed t rest) →
  let w' := snd (safe_save_json filepath data o w) in
  (coherent other w → coherent other w')
  ∧ (fst (safe_save_json filepath data o w) = true → coherent filepath w').
Proof.
  intros Hno. simpl. split.
  - intros Hco. destruct (decide (filepath = other)) as [<-|Hne];
      [|apply (coherent_agree other w); [by apply save_agree_other|done]].
    destruct o as [t| | |t rest]; simpl; try done; [|by destruct (Hno t rest)].
    intros f d _ Hc. simpl in Hc. by rewrite lookup_delete_eq in Hc.
  - destruct o; simpl; try done. intros _ f d _ Hc. simpl in Hc.
    by rewrite lookup_delete_eq in Hc.
Qed.

Lemma save_keeps_coherent_witness :
  coherent NOTES_FILE (snd (safe_save_json NOTES_FILE (JObj ∅) (Written 9) stale_world)).
Proof.
  apply (proj2 (save_keeps_coherent NOTES_FILE NOTES_FILE (JObj ∅) (Written 9)
                  stale_world ltac:(discriminate))).
  reflexivity.
Defined.

(** X6. A save touches one path: what a load of any other path returns
    is the same before and after it, whatever the outcome of the write. *)
Theorem save_leaves_other_paths (filepath other : string) (data default : json)
    (o : write_outcome) (w : world) :
  filepath ≠ other →
  fst (safe_load_json other default (snd (safe_save_json filepath data o w)))
  = fst (safe_load_json other default w).
Proof.
  intros Hne. symmetry. by apply load_local, save_agree_other.
Qed.

Lemma save_leaves_other_paths_witness :
  fst (safe_load_json NOTES_FILE JNull
         (snd (safe_save_json TASKS_FILE (JObj ∅) (DumpFailed 5 Garbled) store_world)))
  = fst (safe_load_json NOTES_FILE JNull store_world).
Proof.
  apply (save_leaves_other_paths TASKS_FILE NOTES_FILE (JObj ∅) JNull
           (DumpFailed 5 Garbled) store_world).
  discriminate.
Defined.

(** X7. After [invalidate] of a path, or [clear], the next load of a
    file that parses returns what the file holds, however stale the cache
    was; [invalidate] leaves the entries of the other paths alone. *)
Theorem invalidate_forces_reload (filepath : string) (default data : json)
    (t : Z) (w : world) :
  files w !! filepath = Some (mkFile (Parses data) t) →
  fst (safe_load_json filepath default (DataCache.invalidate filepath w)) = (data, Shared)
  ∧ fst (safe_load_json filepath default (DataCache.clear w)) = (data, Shared)
  ∧ ∀ other, filepath ≠ other → agree_at other w (DataCache.invalidate filepath w).
Proof.
  intros Hf. split; [|split].
  - apply (load_uncached filepath default data t); simpl; [done|apply lookup_delete_eq].
  - apply (load_uncached filepath default data t); simpl; [done|apply lookup_empty].
  - intros other Hne. unfold agree_at. simpl. by rewrite !lookup_delete_ne.
Qed.

Lemma invalidate_forces_reload_witness :
  fst (safe_load_json NOTES_FILE JNull (DataCache.invalidate NOTES_FILE stale_world))
  = (JObj {[ "ann" := JArr [] ]}, Shared).
Proof.
  apply (invalidate_forces_reload NOTES_FILE JNull (JObj {[ "ann" := JArr [] ]}) 3
           stale_world).
  reflexivity.
Defined.

End StoreMore.

(** * More on the time parser *)

Module TimeMore.

Import TimeSpec TimeMoreSpec TimeFacts.

(** *** Timestamps on the line of seconds *)

Lemma add_seconds_spec (d : datetime) (s : Z) :
  datetime_wf d →
  match add_seconds d s with
  | Ok d' =>
      to_seconds d' = to_seconds d + s ∧ microsecond d' = microsecond d
      ∧ datetime_wf d'
  | Raise e =>
      e = OverflowError
      ∧ ((to_seconds d + s) / 86400 < 1 ∨ MAXORDINAL < (to_seconds d + s) / 86400)
  end.
Proof.
  intros (Ho & Hh & Hm & Hs & Hu). unfold add_seconds.
  set (total := hour d * 3600 + minute d * 60 + second d + s).
  assert (Hdays : (to_seconds d + s) / 86400 = ordinal d + total / 86400).
  { unfold to_seconds.
    replace (ordinal d * 86400 + hour d * 3600 + minute d * 60 + second d + s)
      with (total + ordinal d * 86400) by (unfold total; lia).
    rewrite Z.div_add by lia. lia. }
  pose proof (Z.mod_pos_bound total 86400 ltac:(lia)) as Hrem.
  pose proof (Z.div_mod total 86400 ltac:(lia)) as Hdm.
  set (rem := total mod 86400) in *.
  pose proof (Z.mod_pos_bound rem 3600 ltac:(lia)) as Hr1.
  pose proof (Z.div_mod rem 3600 ltac:(lia)) as Hdm1.
  pose proof (Z.mod_pos_bound (rem mod 3600) 60 ltac:(lia)) as Hr2.
  pose proof (Z.div_mod (rem mod 3600) 60 ltac:(lia)) as Hdm2.
  assert (0 <= rem / 3600 < 24)
    by (split; [apply Z.div_pos; lia|apply Z.div_lt_upper_bound; lia]).
  assert (0 <= (rem mod 3600) / 60 < 60)
    by (split; [apply Z.div_pos; lia|apply Z.div_lt_upper_bound; lia]).
  destruct (Z.ltb_spec 0 (ordinal d + total / 86400));
    destruct (Z.leb_spec (ordinal d + total / 86400) MAXORDINAL); simpl;
    try (split; [done|]; rewrite Hdays; lia).
  unfold datetime_wf, to_seconds. simpl. repeat split; lia.
Qed.

(** On well-formed timestamps, [<] compares the microseconds. *)
Lemma datetime_ltb_micros (a b : datetime) :
  datetime_wf a → datetime_wf b →
  datetime_ltb a b = true ↔ to_micros a < to_micros b.
Proof.
  intros (_ & Hh & Hm & Hs & Hu) (_ & Hh' & Hm' & Hs' & Hu').
  unfold datetime_ltb, to_micros, to_seconds.
  destruct (Z.eqb_spec (ordinal a) (ordinal b));
    [destruct (Z.eqb_spec (hour a) (hour b));
     [destruct (Z.eqb_spec (minute a) (minute b));
      [destruct (Z.eqb_spec (second a) (second b))|]|]|];
    rewrite Z.ltb_lt; lia.
Qed.

(** *** Today or tomorrow, never the past *)

Lemma today_or_tomorrow_spec (h m : Z) (now : datetime) (r : option datetime) :
  datetime_wf now →
  today_or_tomorrow h m now now = Ok r →
  ∃ t, r = Some t ∧ datetime_wf t
       ∧ to_micros now <= to_micros t < to_micros now + 86400 * 1000000.
Proof.
  intros Hwf. pose proof Hwf as (Ho & Hh & Hm & Hs & Hu).
  unfold today_or_tomorrow, replace_time.
  destruct (Z.leb_spec 0 h); [|done]. destruct (Z.leb_spec h 23); [|done].
  destruct (Z.leb_spec 0 m); [|done]. destruct (Z.leb_spec m 59); [|done]. simpl.
  set (target := mkDatetime (ordinal now) h m 0 0).
  assert (Hwt : datetime_wf target) by (unfold datetime_wf, target; simpl; lia).
  destruct (datetime_ltb target now) eqn:Hlt.
  - apply (datetime_ltb_micros target now Hwt Hwf) in Hlt.
    pose proof (add_seconds_spec target (1 * 86400) Hwt) as Hadd.
    unfold add_days. destruct (add_seconds target (1 * 86400)) as [t|e]; [|done].
    destruct Hadd as (Hsec & Hus & Hwt'). intros [= <-]. exists t.
    split; [done|]. split; [done|].
    unfold to_micros, to_seconds in *. simpl in *. lia.
  - intros [= <-]. exists target. split; [done|]. split; [done|].
    assert (Hge : ¬ to_micros target < to_micros now).
    { intros Hc. apply (datetime_ltb_micros target now Hwt Hwf) in Hc. congruence. }
    unfold to_micros, to_seconds in *. simpl in *. lia.
Qed.

Lemma digits_all_digits (s : string) : all_digits (Pattern.digits s).1 = true.
Proof.
  induction s as [|c r IH]; simpl; [done|].
  destruct (is_digit c) eqn:Hc; [|done].
  destruct (Pattern.digits r) as [d rest]. simpl in *. by rewrite Hc, IH.
Qed.

Lemma form3_at_groups (s g1 unit : string) :
  Pattern.form3_at s = Some (g1, unit) → all_digits g1 = true.
Proof.
  unfold Pattern.form3_at.
  destruct s as [|c1 [|c2 [|c r]]]; try done.
  destruct (Ascii.eqb c1 "i" && Ascii.eqb c2 "n" && is_space c); [|done].
  pose proof (digits_all_digits (skip_spaces r)) as Hd.
  destruct (Pattern.digits (skip_spaces r)) as [amount rest]. simpl in Hd.
  destruct amount; [done|].
  destruct (Pattern.unit (skip_spaces rest)); [|done]. by intros [= <- _].
Qed.

Lemma relative_delay_parse (text : string) (now now' : datetime) (g : string) (per : Z) :
  relative_delay (strip (lower text)) = Some (g, per) →
  0 <= int g * per
  ∧ parse_time_input text now now'
    = match int_checked g with
      | Raise e => Raise e
      | Ok amount =>
          match add_seconds now (amount * per) with
          | Ok t => Ok (Some t)
          | Raise e => Raise e
          end
      end.
Proof.
  unfold relative_delay, parse_time_input.
  destruct (Pattern.search Pattern.form1_at _); [done|].
  destruct (Pattern.search Pattern.form2_at _); [done|].
  destruct (Pattern.search Pattern.form3_at _) as [[g1 unit]|] eqn:E3; [|done].
  apply search_some in E3 as [s' E3]. apply form3_at_groups, int_nonneg in E3.
  destruct (String.eqb unit "minute" || String.eqb unit "min").
  - intros [= <- <-]. split; [lia|]. by destruct (int_checked g1).
  - destruct (String.eqb unit "hour" || String.eqb unit "hr"); [|done].
    intros [= <- <-]. split; [lia|]. by destruct (int_checked g1).
Qed.

Lemma relative_is_exact_aux (text : string) (now : datetime) (g : string) (per : Z) :
  datetime_wf now →
  relative_delay (strip (lower text)) = Some (g, per) →
  match parse text now with
  | Ok (Some t) =>
      (String.length g ≤ int_max_str_digits)%nat
      ∧ 0 <= int g * per
      ∧ to_seconds t = to_seconds now + int g * per
      ∧ microsecond t = microsecond now
      ∧ datetime_wf t
  | Ok None => False
  | Raise e =>
      (e = ValueError ∧ (int_max_str_digits < String.length g)%nat)
      ∨ (e = OverflowError
         ∧ (String.length g ≤ int_max_str_digits)%nat
         ∧ MAXORDINAL < (to_seconds now + int g * per) / 86400)
  end.
Proof.
  intros Hwf Hrel. destruct (relative_delay_parse text now now g per Hrel) as [Hs Hp].
  unfold parse. rewrite Hp. unfold int_checked.
  destruct (Nat.ltb_spec int_max_str_digits (String.length g)) as [Hlong|Hshort];
    [by left|].
  pose proof (add_seconds_spec now (int g * per) Hwf) as Hadd.
  destruct (add_seconds now (int g * per)) as [t|e]; [done|]. right.
  destruct Hadd as [-> [Hlo|Hhi]]; [|done]. exfalso.
  destruct Hwf as (Ho & Hh & Hm & Hsec & _).
  assert (1 * 86400 <= to_seconds now + int g * per) by (unfold to_seconds; lia).
  pose proof (Z.div_le_mono (1 * 86400) (to_seconds now + int g * per) 86400
                ltac:(lia) ltac:(lia)).
  rewrite Z.div_mul in * by lia. lia.
Qed.

(** X8. A relative delay is exact: for "in N minutes" or "in N hours"
    that forms 1 and 2 do not match, with N written in at most 4300
    digits, [parse] returns [now] plus exactly that many seconds, the
    microseconds of [now] kept, or raises [OverflowError] when that date
    lies beyond year 9999; with N written in more than 4300 digits,
    leading zeros counted, it raises [ValueError].  It never returns
    [None]. *)
Theorem relative_is_exact (text : string) (now : datetime) (g : string) (per : Z) :
  datetime_wf now →
  relative_delay (strip (lower text)) = Some (g, per) →
  match parse text now with
  | Ok (Some t) =>
      (String.length g ≤ int_max_str_digits)%nat
      ∧ to_seconds t = to_seconds now + int g * per
      ∧ microsecond t = microsecond now
      ∧ datetime_wf t
  | Ok None => False
  | Raise e =>
      (e = ValueError ∧ (int_max_str_digits < String.length g)%nat)
      ∨ (e = OverflowError
         ∧ (String.length g ≤ int_max_str_digits)%nat
         ∧ MAXORDINAL < (to_seconds now + int g * per) / 86400)
  end.
Proof.
  intros Hwf Hrel. pose proof (relative_is_exact_aux text now g per Hwf Hrel) as H.
  destruct (parse text now) as [[t|]|e]; [|done|done].
  by destruct H as (? & _ & ? & ? & ?).
Qed.

Lemma a_monday_morning_wf : datetime_wf a_monday_morning.
Proof. unfold datetime_wf, a_monday_morning, MAXORDINAL. simpl. lia. Defined.

Lemma relative_is_exact_witness :
  match parse "in 45 min" a_monday_morning with
  | Ok (Some t) =>
      (String.length "45" ≤ int_max_str_digits)%nat
      ∧ to_seconds t = to_seconds a_monday_morning + int "45" * 60
      ∧ microsecond t = microsecond a_monday_morning
      ∧ datetime_wf t
  | Ok None => False
  | Raise e =>
      (e = ValueError ∧ (int_max_str_digits < String.length "45")%nat)
      ∨ (e = OverflowError
         ∧ (String.length "45" ≤ int_max_str_digits)%nat
         ∧ MAXORDINAL < (to_seconds a_monday_morning + int "45" * 60) / 86400)
  end.
Proof.
  apply (relative_is_exact "in 45 min" a_monday_morning "45" 60);
    [apply a_monday_morning_wf|reflexivity].
Defined.

(** The three outcomes of a relative delay: three quarters of an hour
    later, a date past the calendar, and an amount of 4301 digits, which
    [int] refuses where one of 4300 digits is read. *)
Example relative_outcomes :
  parse "in 45 min" a_monday_morning = Ok (Some (mkDatetime 738886 10 0 30 250000))
  ∧ parse "in 99999999999 hours" a_monday_morning = Raise OverflowError
  ∧ parse (in_nines_min 4300) a_monday_morning = Raise OverflowError
  ∧ parse (in_nines_min 4301) a_monday_morning = Raise ValueError.
Proof. repeat split; by vm_compute. Qed.

(** X9. [parse] never answers with the past: every timestamp it
    returns is a well-formed one and is not before [now]. *)
Theorem parse_not_before_now (text : string) (now t : datetime) :
  datetime_wf now →
  parse text now = Ok (Some t) →
  datetime_wf t ∧ to_micros now <= to_micros t ∧ datetime_ltb t now = false.
Proof.
  intros Hwf Hp.
  assert (H : datetime_wf t ∧ to_micros now <= to_micros t).
  { destruct (clock_fields (strip (lower text))) as [[h m]|] eqn:Hcf.
    - unfold parse in Hp. rewrite (parse_clock_fields text now now h m Hcf) in Hp.
      destruct (today_or_tomorrow_spec h m now (Some t) Hwf Hp) as (t' & [= <-] & ? & ? & _).
      done.
    - destruct (relative_delay (strip (lower text))) as [[g per]|] eqn:Hrel.
      + pose proof (relative_is_exact_aux text now g per Hwf Hrel) as Hx.
        rewrite Hp in Hx. destruct Hx as (_ & Hs & Hsec & Hus & Hwt).
        split; [done|]. unfold to_micros. lia.
      + exfalso. revert Hp Hcf Hrel.
        unfold parse, parse_time_input, clock_fields, relative_delay.
        destruct (Pattern.search Pattern.form1_at _) as [[[? ?] ?]|]; [done|].
        destruct (Pattern.search Pattern.form2_at _) as [[? ?]|]; [done|].
        destruct (Pattern.search Pattern.form3_at _) as [[g1 unit]|]; [|done].
        destruct (int_checked g1); [|done].
        destruct (String.eqb unit "minute" || String.eqb unit "min"); [done|].
        by destruct (String.eqb unit "hour" || String.eqb unit "hr"). }
  destruct H as [Hwt Hle]. split; [done|]. split; [done|].
  destruct (datetime_ltb t now) eqn:Hlt; [|done].
  apply (datetime_ltb_micros t now Hwt Hwf) in Hlt. lia.
Qed.

Lemma parse_not_before_now_witness :
  datetime_wf (mkDatetime 738887 7 0 0 0)
  ∧ to_micros a_monday_morning <= to_micros (mkDatetime 738887 7 0 0 0)
  ∧ datetime_ltb (mkDatetime 738887 7 0 0 0) a_monday_morning = false.
Proof.
  apply (parse_not_before_now "wake me at 7 am" a_monday_morning);
    [apply a_monday_morning_wf|reflexivity].
Defined.



End TimeMore.

(** * More on the task, note and preference stores *)

Module CallingMore.

Import StoreSpec StoreMoreSpec CallingSpec CallingMoreSpec StoreFacts CallingFacts.

Local Open Scope list_scope.

(** *** One call after another *)

(** After a successful save the path holds the saved mapping. *)
Lemma holds_after_save (filepath : string) (m : gmap string json) (t : Z) (w : world) :
  holds filepath m (snd (save_json filepath (JObj m) (Written t) w)).
Proof.
  apply (holds_file _ _ _ t); simpl; [by rewrite lookup_insert_eq|].
  intros f d _ Hc. simpl in Hc. by rewrite lookup_delete_eq in Hc.
Qed.

Lemma saved_intro (filepath : string) (m : gmap string json) (o : write_outcome)
    (org : origin) (w w1 : world) :
  files w1 = files w →
  saved filepath m o w
    (snd (save_json filepath (JObj m) o (mutated filepath org (JObj m) w1))).
Proof.
  intros Hf. split.
  - rewrite save_disk_after. destruct o; simpl; by rewrite ?mutated_files, Hf.
  - intros t ->. apply holds_after_save.
Qed.

Lemma finish_run {A : Type} (filepath : string) (org : origin) (doc : json)
    (o : write_outcome) (r : A) (w : world) :
  (_ ← run (λ w, (tt, mutated filepath org doc w));
   _ ← run (save_json filepath doc o);
   mret r) w
  = (Ok r, snd (save_json filepath doc o (mutated filepath org doc w))).
Proof.
  unfold run, mbind, M_bind, mret, M_ret. simpl.
  by destruct (save_json filepath doc o _).
Qed.

(** *** First time, until the tutorial is marked *)





(** *** Marking a task that is there *)

Lemma store_back_saved (filepath user_id : string) (org : origin)
    (m : gmap string json) (l l' : list json) (o : write_outcome) (w w1 : world) :
  files w1 = files w →
  ∃ w', store_back filepath user_id org (JObj m) (JArr l) l' o w1 = (Ok tt, w')
        ∧ saved filepath (<[user_id := JArr l']> m) o w w'.
Proof.
  intros Hf. unfold store_back.
  unfold lift at 1, py_setitem, mbind at 1, M_bind.
  rewrite finish_run. eexists. split; [done|]. by apply saved_intro.
Qed.

Lemma set_flag_present (flag task_id : string) (pre post : list json)
    (mr : gmap string json) :
  tasks_without task_id pre →
  eq_str (dict_get mr "id" JNull) task_id = true →
  TaskChecker.set_flag flag task_id (pre ++ JObj mr :: post)
  = Ok (pre ++ JObj (<[flag := JBool true]> mr) :: post).
Proof.
  intros Hpre Hid. induction Hpre as [|r l (mr' & -> & Hno) _ IH]; simpl.
  - unfold mbind, result_bind. simpl. by rewrite Hid.
  - unfold mbind, result_bind. simpl. rewrite Hno.
    unfold mbind, result_bind in IH. by rewrite IH.
Qed.

Lemma mark_task_run (k : mark) (user_id task_id : string) (m : gmap string json)
    (items items' : list json) (o : write_outcome) (w : world) :
  holds TASKS_FILE m w →
  dict_get m user_id (JArr []) = JArr items →
  TaskChecker.set_flag (flag_of k) task_id items = Ok items' →
  ∃ w', mark_task k user_id task_id o w = (Ok tt, w')
        ∧ saved TASKS_FILE (<[user_id := JArr items']> m) o w w'.
Proof.
  intros Hh Hl Hset. destruct (load_holds _ _ _ Hh) as (org & w1 & Hload & Hf & _).
  destruct (store_back_saved TASKS_FILE user_id org m items items' o w w1 Hf)
    as (w' & Hsb & Hsaved).
  exists w'. split; [|done].
  destruct k; simpl in Hset;
    unfold mark_task, TaskChecker.mark_task_notified, TaskChecker.mark_task_completed;
    rewrite (bind_ok _ _ _ _ _ Hload); simpl;
    unfold lift at 1, py_get, mbind at 1, M_bind; rewrite Hl;
    unfold lift at 1, py_iter, mbind at 1, M_bind;
    unfold lift at 1, mbind at 1, M_bind; rewrite Hset; exact Hsb.
Qed.


Lemma ann_tasks_eq :
  dict_get tasks_doc "ann" (JArr [])
  = JArr ( [task "t1" "2024-01-01T09:00:00" false false;
     task "t2" "2024-01-01T10:00:00" true false;
     task "t3" "soon" false false;
     task "t4" "2024-01-01T18:00:00" false false;
     task "t5" "2024-01-01T09:30:00" false true]
    ++ task "t6" "2024-01-01T12:00:00" false false :: []).
Proof. vm_compute. reflexivity. Defined.

Lemma before_t6_without :
  tasks_without "t6"
    [task "t1" "2024-01-01T09:00:00" false false;
     task "t2" "2024-01-01T10:00:00" true false;
     task "t3" "soon" false false;
     task "t4" "2024-01-01T18:00:00" false false;
     task "t5" "2024-01-01T09:30:00" false true].
Proof.
  repeat (apply Forall_cons; split; [eexists; split; [reflexivity|by vm_compute]|]).
  apply Forall_nil. done.
Defined.


Lemma get_pending_run `{DatetimeFormat} (user_id : string) (now : datetime)
    (m : gmap string json) (l : list json) (w : world) :
  holds TASKS_FILE m w →
  dict_get m user_id (JArr []) = JArr l →
  Forall is_record l →
  fst (TaskChecker.get_pending_tasks user_id now w)
  = Ok (List.filter (λ r, is_pending r now) l).
Proof.
  intros Hh Hl Hrec. destruct (load_holds _ _ _ Hh) as (org & w1 & Hload & _).
  unfold TaskChecker.get_pending_tasks. rewrite (bind_ok _ _ _ _ _ Hload). simpl.
  unfold lift, mbind, M_bind, py_get. rewrite Hl. simpl. by rewrite scan_records.
Qed.

Lemma tasks_without_records (task_id : string) (l : list json) :
  tasks_without task_id l → Forall is_record l.
Proof.
  intros Hw. eapply Forall_impl; [exact Hw|]. intros r (mr & -> & _). by eexists.
Qed.

Lemma marked_is_not_pending `{DatetimeFormat} (k : mark) (mr : gmap string json)
    (now : datetime) :
  is_pending (JObj (<[flag_of k := JBool true]> mr)) now = false.
Proof.
  destruct k; simpl; unfold dict_get.
  - rewrite lookup_insert_eq. simpl. by rewrite andb_false_r.
  - rewrite lookup_insert_eq. done.
Qed.

(** X13. Once [mark_task_notified] or [mark_task_completed] has saved,
    [get_pending_tasks] no longer returns the marked task, and returns
    every other task exactly when it did before, in the same order. *)
Theorem marked_task_leaves_pending `{DatetimeFormat} (k : mark)
    (user_id task_id : string) (m : gmap string json) (pre post : list json)
    (mr : gmap string json) (t : Z) (now : datetime) (w : world) :
  holds TASKS_FILE m w →
  dict_get m user_id (JArr []) = JArr (pre ++ JObj mr :: post) →
  tasks_without task_id pre →
  Forall is_record post →
  eq_str (dict_get mr "id" JNull) task_id = true →
  let w' := snd (mark_task k user_id task_id (Written t) w) in
  let pending := List.filter (λ r, is_pending r now) in
  fst (TaskChecker.get_pending_tasks user_id now w)
  = Ok (pending pre ++ pending [JObj mr] ++ pending post)
  ∧ fst (TaskChecker.get_pending_tasks user_id now w')
    = Ok (pending pre ++ pending post).
Proof.
  intros Hh Hl Hpre Hpost Hid.
  pose proof (tasks_without_records _ _ Hpre) as Hrpre.
  destruct (mark_task_run k user_id task_id m _ _ (Written t) w Hh Hl
              (set_flag_present (flag_of k) task_id pre post mr Hpre Hid))
    as (w' & Hrun & _ & Hh').
  cbv zeta. rewrite Hrun. cbn [snd]. specialize (Hh' t eq_refl). split.
  - rewrite (get_pending_run user_id now m _ w Hh Hl).
    + rewrite List.filter_app. cbn [List.filter app].
      by destruct (is_pending (JObj mr) now).
    + apply Forall_app. split; [done|]. apply Forall_cons. split; [by eexists|done].
  - rewrite (get_pending_run user_id now _ (pre ++ JObj (<[flag_of k := JBool true]> mr) :: post)
               w' Hh').
    + rewrite List.filter_app. cbn [List.filter]. by rewrite marked_is_not_pending.
    + unfold dict_get. by rewrite lookup_insert_eq.
    + apply Forall_app. split; [done|]. apply Forall_cons. split; [by eexists|done].
Qed.

Lemma marked_task_leaves_pending_witness :
  fst (TaskChecker.get_pending_tasks (H := Calendar.python_format) "ann" noon
         (snd (TaskChecker.mark_task_notified "ann" "t6" (Written 3) store_world)))
  = Ok (List.filter (λ r, is_pending (H := Calendar.python_format) r noon) before_t6
        ++ List.filter (λ r, is_pending (H := Calendar.python_format) r noon) []).
Proof.
  exact (proj2 (marked_task_leaves_pending (H := Calendar.python_format) Notified
                  "ann" "t6" tasks_doc before_t6 [] t6_fields 3 noon store_world
                  store_world_tasks ann_tasks_eq before_t6_without
                  (Forall_nil_2 _) eq_refl)).
Defined.

(** X14. Marking is idempotent: marking the same task again saves the
    same document as the first marking did. *)
Theorem mark_twice_same_document (k : mark) (user_id task_id : string)
    (m : gmap string json) (pre post : list json) (mr : gmap string json)
    (t : Z) (o : write_outcome) (w : world) :
  holds TASKS_FILE m w →
  dict_get m user_id (JArr []) = JArr (pre ++ JObj mr :: post) →
  tasks_without task_id pre →
  eq_str (dict_get mr "id" JNull) task_id = true →
  let w1 := snd (mark_task k user_id task_id (Written t) w) in
  let m1 := <[user_id := JArr (pre ++ JObj (<[flag_of k := JBool true]> mr) :: post)]> m in
  holds TASKS_FILE m1 w1
  ∧ ∃ w2, mark_task k user_id task_id o w1 = (Ok tt, w2)
          ∧ files w2 = disk_after TASKS_FILE (JObj m1) o w1.
Proof.
  intros Hh Hl Hpre Hid.
  destruct (mark_task_run k user_id task_id m _ _ (Written t) w Hh Hl
              (set_flag_present (flag_of k) task_id pre post mr Hpre Hid))
    as (w1 & Hrun & _ & Hh1).
  simpl. rewrite Hrun. simpl. specialize (Hh1 t eq_refl). split; [done|].
  set (mr1 := <[flag_of k := JBool true]> mr) in *.
  assert (Hid1 : eq_str (dict_get mr1 "id" JNull) task_id = true).
  { unfold dict_get, mr1. rewrite lookup_insert_ne by (by destruct k). exact Hid. }
  destruct (mark_task_run k user_id task_id _ (pre ++ JObj mr1 :: post) _ o w1 Hh1
              ltac:(unfold dict_get; by rewrite lookup_insert_eq)
              (set_flag_present (flag_of k) task_id pre post mr1 Hpre Hid1))
    as (w2 & Hrun2 & Hfiles2 & _).
  exists w2. split; [done|]. rewrite Hfiles2. unfold mr1.
  by rewrite !insert_insert_eq.
Qed.

Lemma mark_twice_same_document_witness :
  let w1 := snd (mark_task Completed "ann" "t6" (Written 3) store_world) in
  let m1 := <["ann" := JArr (before_t6
                             ++ [JObj (<["completed" := JBool true]> t6_fields)])]>
              tasks_doc in
  holds TASKS_FILE m1 w1
  ∧ ∃ w2, mark_task Completed "ann" "t6" (Written 4) w1 = (Ok tt, w2)
          ∧ files w2 = disk_after TASKS_FILE (JObj m1) (Written 4) w1.
Proof.
  exact (mark_twice_same_document Completed "ann" "t6" tasks_doc before_t6 [] t6_fields
           3 (Written 4) store_world store_world_tasks ann_tasks_eq before_t6_without
           eq_refl).
Defined.

(** *** Creating a task *)





(** The appended task on the disk, after the six that were there; a
    denied write leaves the file alone and is reported as a success all
    the same. *)
Example create_task_on_disk :
  let r := TaskChecker.create_task (H := Calendar.python_format)
             "ann" "call home" "5pm" noon noon noon "id-1" (Written 2) store_world in
  let r' := TaskChecker.create_task (H := Calendar.python_format)
              "ann" "call home" "5pm" noon noon noon "id-1" OpenDenied store_world in
  f_content <$> files (snd r) !! TASKS_FILE
  = Some (Parses (JObj {[ "ann" :=
            JArr (ann_tasks
                  ++ [JObj (list_to_map
                        [("id", JStr "id-1"); ("reason", JStr "call home");
                         ("time", JStr "2024-01-01T17:00:00");
                         ("created", JStr "2024-01-01T12:00:00");
                         ("completed", JBool false); ("notified", JBool false)])]) ]}))
  ∧ fst r' = Ok (true, "Reminder set for 05:00 PM on January 01: call home")
  ∧ files (snd r') = files store_world.
Proof. repeat split; by vm_compute. Qed.




(** *** Notes: adding, deleting, updating *)








Lemma keep_others_raises (note_id : string) (pre post : list json)
    (mr : gmap string json) :
  all_have_id pre →
  mr !! "id" = None →
  NoteManager.keep_others note_id (pre ++ JObj mr :: post) = Raise KeyError.
Proof.
  intros Hpre Hno. induction Hpre as [|r l (mr' & x & -> & Hx) _ IH].
  - cbn [app NoteManager.keep_others py_getitem]. by rewrite Hno.
  - cbn [app NoteManager.keep_others py_getitem].
    unfold mbind, result_bind. rewrite Hx.
    unfold mbind, result_bind in IH. by rewrite IH.
Qed.





(** X19. [delete_note] reads the id of every note of the user with
    [n['id']]: when one of them is a record without an id, the call raises
    [KeyError], whichever note was to be deleted, and writes nothing. *)
Theorem delete_note_needs_every_id (user_id note_id : string) (o : write_outcome)
    (m : gmap string json) (pre post : list json) (mr : gmap string json) (w : world) :
  holds NOTES_FILE m w →
  dict_get m user_id (JArr []) = JArr (pre ++ JObj mr :: post) →
  all_have_id pre →
  mr !! "id" = None →
  let r := NoteManager.delete_note user_id note_id o w in
  fst r = Raise KeyError ∧ files (snd r) = files w ∧ toasts (snd r) = toasts w.
Proof.
  intros Hh Hl Hpre Hno.
  destruct (load_holds _ _ _ Hh) as (org & w1 & Hload & Hf & Ht).
  cbv zeta. unfold NoteManager.delete_note.
  rewrite (bind_ok _ _ _ _ _ Hload). cbn beta iota.
  rewrite (bind_ok _ _ (JArr (pre ++ JObj mr :: post)) w1 w1)
    by (unfold lift, py_get; by rewrite Hl).
  rewrite (bind_ok _ _ (pre ++ JObj mr :: post) w1 w1) by done.
  rewrite (bind_raise _ _ KeyError w1 w1)
    by (unfold lift; by rewrite (keep_others_raises _ _ _ _ Hpre Hno)).
  done.
Qed.

Lemma delete_note_needs_every_id_witness :
  let w := mkWorld {[ NOTES_FILE :=
             mkFile (Parses (JObj {[ "ann" := JArr [note "n1" "shopping"; JObj ∅] ]})) 1 ]}
             ∅ ∅ [] in
  fst (NoteManager.delete_note "ann" "n1" (Written 2) w) = Raise KeyError.
Proof.
  refine (proj1 (delete_note_needs_every_id "ann" "n1" (Written 2)
                   {[ "ann" := JArr [note "n1" "shopping"; JObj ∅] ]}
                   [note "n1" "shopping"] [] ∅ _ _ eq_refl _ eq_refl)).
  - apply (holds_file _ _ _ 1); [by vm_compute|].
    intros f d Hf Hc. by vm_compute in Hc.
  - apply Forall_cons. split; [eexists _, _; split; [reflexivity|by vm_compute]|].
    apply Forall_nil. done.
Defined.





(** *** Reading a store that does not parse *)

Lemma corrupt_load_run (filepath : string) (f : file) (w : world) :
  files w !! filepath = Some f →
  f_content f = Garbled →
  ¬ cache_hit filepath w →
  ∃ w1, run (load_json filepath (JObj ∅)) w = (Ok (JObj ∅, Fresh), w1)
        ∧ files w1 = files w.
Proof.
  intros Hf Hg Hmiss. unfold run, load_json.
  rewrite (corrupt_load_eq filepath (JObj ∅) f w Hf Hg Hmiss). by eexists.
Qed.

(** X21. The readers do not raise on a store that does not parse: with
    a corrupt file that the cache does not shadow, [get_pending_tasks]
    returns no task, [get_notes] no note, and [is_first_time] answers
    [True], for every user. *)
Theorem readers_survive_corrupt_store `{DatetimeFormat} (user_id : string)
    (now : datetime) (w : world) :
  (∀ p, p ∈ [TASKS_FILE; NOTES_FILE; USER_PREFS_FILE] →
        ∃ f, files w !! p = Some f ∧ f_content f = Garbled ∧ ¬ cache_hit p w) →
  fst (TaskChecker.get_pending_tasks user_id now w) = Ok []
  ∧ fst (NoteManager.get_notes user_id w) = Ok (JArr [])
  ∧ fst (TutorialManager.is_first_time user_id w) = Ok true.
Proof.
  intros Hbad.
  assert (Hload : ∀ p, p ∈ [TASKS_FILE; NOTES_FILE; USER_PREFS_FILE] →
            ∃ w1, run (load_json p (JObj ∅)) w = (Ok (JObj ∅, Fresh), w1)).
  { intros p Hp. destruct (Hbad p Hp) as (f & Hf & Hg & Hmiss).
    destruct (corrupt_load_run p f w Hf Hg Hmiss) as (w1 & Hrun & _). by exists w1. }
  split; [|split].
  - destruct (Hload TASKS_FILE) as (w1 & Hrun); [set_solver|].
    unfold TaskChecker.get_pending_tasks. by rewrite (bind_ok _ _ _ _ _ Hrun).
  - destruct (Hload NOTES_FILE) as (w1 & Hrun); [set_solver|].
    unfold NoteManager.get_notes. by rewrite (bind_ok _ _ _ _ _ Hrun).
  - destruct (Hload USER_PREFS_FILE) as (w1 & Hrun); [set_solver|].
    unfold TutorialManager.is_first_time. by rewrite (bind_ok _ _ _ _ _ Hrun).
Qed.

Lemma readers_survive_corrupt_store_witness :
  let w := mkWorld {[ TASKS_FILE := mkFile Garbled 7; NOTES_FILE := mkFile Garbled 7;
                      USER_PREFS_FILE := mkFile Garbled 7 ]} ∅ ∅ [] in
  fst (TaskChecker.get_pending_tasks (H := Calendar.python_format) "ann" noon w) = Ok []
  ∧ fst (NoteManager.get_notes "ann" w) = Ok (JArr [])
  ∧ fst (TutorialManager.is_first_time "ann" w) = Ok true.
Proof.
  apply (readers_survive_corrupt_store (H := Calendar.python_format)).
  intros p Hp. exists (mkFile Garbled 7).
  assert (Hc : ∀ q, ¬ cache_hit q
                 (mkWorld {[ TASKS_FILE := mkFile Garbled 7; NOTES_FILE := mkFile Garbled 7;
                             USER_PREFS_FILE := mkFile Garbled 7 ]} ∅ ∅ [])).
  { intros q (f & _ & [d Hd] & _). simpl in Hd. by rewrite lookup_empty in Hd. }
  rewrite !elem_of_cons in Hp.
  destruct Hp as [->|[->|[->|Hp]]]; [| | |by apply elem_of_nil in Hp];
    (split; [by vm_compute|split; [reflexivity|apply Hc]]).
Defined.

(** X22. [create_task] on a tasks file that does not parse starts from
    an empty document: a successful save replaces the file with a document
    that holds the new task of this user and nothing else. *)
Theorem create_task_replaces_corrupt_file `{DatetimeFormat}
    (user_id reason time_str : string) (now now' created target : datetime)
    (new_id : string) (t : Z) (f : file) (w : world) :
  files w !! TASKS_FILE = Some f →
  f_content f = Garbled →
  ¬ cache_hit TASKS_FILE w →
  parse_time_input time_str now now' = Ok (Some target) →
  let r := TaskChecker.create_task user_id reason time_str now now' created new_id
             (Written t) w in
  fst r = Ok (true, ("Reminder set for " ++ strftime "%I:%M %p on %B %d" target
                     ++ ": " ++ reason)%string)
  ∧ files (snd r)
    = <[TASKS_FILE :=
          mkFile (Parses (JObj {[ user_id :=
                    JArr [created_task new_id reason target created] ]})) t]> (files w).
Proof.
  intros Hf Hg Hmiss Hp.
  destruct (corrupt_load_run TASKS_FILE f w Hf Hg Hmiss) as (w1 & Hload & Hfiles).
  cbv zeta. unfold TaskChecker.create_task.
  rewrite (bind_ok _ _ (Some target) w w) by (unfold lift; by rewrite Hp).
  rewrite (bind_ok _ _ _ _ _ Hload). cbv zeta.
  fold (created_task new_id reason target created).
  rewrite lookup_empty. unfold dict_get. rewrite lookup_insert_eq.
  rewrite finish_run, insert_insert_eq. cbn [fst snd mutated].
  rewrite save_disk_after. cbn [disk_after]. rewrite Hfiles.
  split; [done|]. by rewrite insert_empty.
Qed.

Lemma create_task_replaces_corrupt_file_witness :
  let w := mkWorld {[ TASKS_FILE := mkFile Garbled 7 ]} ∅ ∅ [] in
  files (snd (TaskChecker.create_task (H := Calendar.python_format)
                "ann" "call home" "5pm" noon noon noon "id-1" (Written 8) w))
  = <[TASKS_FILE :=
        mkFile (Parses (JObj {[ "ann" :=
                  JArr [created_task (H := Calendar.python_format) "id-1" "call home"
                          (mkDatetime 738886 17 0 0 0) noon] ]})) 8]>
      (files w).
Proof.
  refine (proj2 (create_task_replaces_corrupt_file (H := Calendar.python_format)
                   "ann" "call home" "5pm" noon noon noon (mkDatetime 738886 17 0 0 0)
                   "id-1" 8 (mkFile Garbled 7)
                   (mkWorld {[ TASKS_FILE := mkFile Garbled 7 ]} ∅ ∅ [])
                   _ eq_refl _ _)).
  - by vm_compute.
  - intros (f & _ & [d Hd] & _). simpl in Hd. by rewrite lookup_empty in Hd.
  - vm_compute. reflexivity.
Defined.

End CallingMore.
(** * More on the text matcher *)

Module MatchMore.

Import SequenceMatcher MatchSpec MatchFacts.

(** *** Strings that differ in case only *)

(** X23. Case does not count: two strings with the same lower-case
    form have similarity 1 and match at every threshold up to 1, the
    default included. *)
Theorem same_up_to_case_matches (a b : string) (threshold : Q) :
  lower a = lower b →
  (threshold <= 1)%Q →
  (∃ r, fuzzy_similarity a b = Some r ∧ (r == 1)%Q)
  ∧ fuzzy_match a b threshold = Some true
  ∧ fuzzy_match a b default_threshold = Some true.
Proof.
  intros Hl Ht.
  destruct (ratio_self (list_ascii_of_string (lower b))) as (r & Hr & Hone).
  unfold fuzzy_match, fuzzy_similarity. rewrite Hl, Hr. simpl.
  split; [by exists r|]. split; f_equal; apply Qle_bool_iff; rewrite Hone; [done|].
  by vm_compute.
Qed.

Lemma same_up_to_case_matches_witness :
  fuzzy_match "Remind Me" "remind me" (9 # 10) = Some true.
Proof.
  refine (proj1 (proj2 (same_up_to_case_matches "Remind Me" "remind me" (9 # 10) _ _))).
  - reflexivity.
  - by vm_compute.
Defined.

(** *** Strings with no character in common *)

Lemma positions_absent (c : ascii) (s : list ascii) (i : Z) :
  c ∉ s → positions c i s = [].
Proof.
  revert i. induction s as [|x r IH]; intros i Hc; [done|].
  apply not_elem_of_cons in Hc as [Hne Hc]. simpl.
  destruct (decide (x = c)) as [->|_]; [done|]. by apply IH.
Qed.

Lemma chain_b_absent (c : ascii) (s : list ascii) :
  c ∉ s → chain_b s !! c = None.
Proof.
  intros Hc.
  assert (H : index_elements 0 s ∅ !! c = None).
  { by rewrite index_elements_lookup, (positions_absent c s 0 Hc), lookup_empty. }
  unfold chain_b. destruct (200 <=? Z.of_nat (length s)); [|done].
  apply map_lookup_filter_None. by left.
Qed.

Lemma scan_rows_nothing (a : list ascii) (b2j : gmap ascii (list Z))
    (blo bhi : Z) (n : nat) :
  (∀ c, c ∈ a → b2j !! c = None) →
  ∀ i j2len best, scan_rows a b2j blo bhi n i j2len best = best.
Proof.
  intros Hno. induction n as [|n IH]; intros i j2len best; [done|].
  cbn [scan_rows]. unfold item.
  destruct (a !! Z.to_nat i) as [elt|] eqn:He.
  - rewrite (Hno elt) by (by eapply list_elem_of_lookup_2). simpl. apply IH.
  - simpl. apply IH.
Qed.

Lemma find_longest_match_nothing (a b : list ascii) :
  (∀ c, c ∈ a → c ∉ b) →
  find_longest_match a b (chain_b b) 0 (Z.of_nat (length a)) 0 (Z.of_nat (length b))
  = (0, 0, 0).
Proof.
  intros Hno. unfold find_longest_match.
  rewrite scan_rows_nothing by (intros c Hc; by apply chain_b_absent, Hno).
  cbn [fst snd size]. change (Z.to_nat (0 - 0)) with 0%nat.
  cbn [extend_back fst snd size]. change (0 + 0) with 0. rewrite Z.sub_0_r.
  destruct (Z.to_nat (Z.of_nat (length a))) as [|n] eqn:Hn; [done|].
  cbn [extend_forward]. unfold item. change (0 + 0) with 0.
  change (Z.to_nat 0) with 0%nat.
  destruct a as [|x a']; [done|]. destruct b as [|y b']; [by rewrite andb_false_r|].
  cbn [lookup list_lookup]. rewrite bool_decide_eq_false_2, andb_false_r; [done|].
  intros [= ->]. apply (Hno y); apply elem_of_cons; by left.
Qed.

Lemma ratio_nothing (a b : list ascii) :
  (∀ c, c ∈ a → c ∉ b) →
  ratio a b = Some (calculate_ratio 0 (Z.of_nat (length a) + Z.of_nat (length b))).
Proof.
  intros Hno. unfold ratio, get_matching_blocks.
  replace (2 * length a + 1)%nat with (S (2 * length a)) by lia.
  cbn [matching_loop]. rewrite (find_longest_match_nothing a b Hno).
  cbn [Z.eqb]. by rewrite matching_loop_done.
Qed.

Lemma lower_length (s : string) :
  length (list_ascii_of_string (lower s)) = String.length s.
Proof. induction s as [|c r IH]; [done|]. simpl. by rewrite IH. Qed.

(** X24. Two strings whose lower-case forms share no character, not
    both empty, have similarity 0 and match at no positive threshold;
    so does the empty string with any other string. *)
Theorem nothing_in_common_never_matches (a b : string) (threshold : Q) :
  (∀ c, c ∈ list_ascii_of_string (lower a) → c ∉ list_ascii_of_string (lower b)) →
  a ≠ "" ∨ b ≠ "" →
  (0 < threshold)%Q →
  (∃ r, fuzzy_similarity a b = Some r ∧ (r == 0)%Q)
  ∧ fuzzy_match a b threshold = Some false.
Proof.
  intros Hno Hne Ht. unfold fuzzy_match, fuzzy_similarity.
  rewrite (ratio_nothing _ _ Hno), !lower_length. simpl.
  assert (Hlen : Z.of_nat (String.length a) + Z.of_nat (String.length b) ≠ 0).
  { destruct Hne as [Hn|Hn]; [destruct a|destruct b]; try done; simpl; lia. }
  unfold calculate_ratio. rewrite (proj2 (Z.eqb_neq _ _) Hlen).
  split; [by eexists|]. f_equal.
  destruct (Qle_bool threshold _) eqn:Hq; [|done].
  apply Qle_bool_iff in Hq. exfalso. apply (Qlt_not_le _ _ Ht).
  eapply Qle_trans; [exact Hq|]. unfold Qle. simpl. lia.
Qed.

Lemma nothing_in_common_never_matches_witness :
  fuzzy_match "" "note" default_threshold = Some false.
Proof.
  refine (proj2 (nothing_in_common_never_matches "" "note" default_threshold _ _ _)).
  - intros c Hc. by apply elem_of_nil in Hc.
  - by right.
  - by vm_compute.
Defined.

End MatchMore.

(** * The typewriter label and the placeholders *)

Module TextMore.

Import TypeWriterLabel TextMoreSpec.

Local Open Scope list_scope.

Section Typing.

Context {char : Type}.

Implicit Types (l : label char) (t : list char).

Lemma cancel_self (e : nat) : cancel e [e] = [].
Proof. unfold cancel. simpl. by rewrite Nat.eqb_refl. Qed.

Lemma cancel_absent (e : nat) (clock : list nat) : ¬ In e (cancel e clock).
Proof.
  unfold cancel. intros Hin. apply List.filter_In in Hin as [_ Hne].
  by rewrite Nat.eqb_refl in Hne.
Qed.

Lemma fire_unscheduled (e : nat) l : ¬ In e (scheduled l) → fire e l = l.
Proof.
  intros Hno. unfold fire.
  destruct (existsb (Nat.eqb e) (scheduled l)) eqn:Hex; [|done].
  apply existsb_exists in Hex as (x & Hin & Hx).
  apply Nat.eqb_eq in Hx as <-. done.
Qed.

(** One firing while characters are left. *)
Lemma fire_types (e : nat) l :
  In e (scheduled l) →
  0 <= current_index l < Z.of_nat (length (full_text l)) →
  fire e l
  = mkLabel (full_text l) (take (Z.to_nat (current_index l + 1)) (full_text l))
      (current_index l + 1) (_animation_event l) (scheduled l) (next_event l).
Proof.
  intros Hin Hidx. unfold fire, _type_next_char, slice_to.
  assert (Hex : existsb (Nat.eqb e) (scheduled l) = true).
  { apply existsb_exists. exists e. split; [done|apply Nat.eqb_refl]. }
  rewrite Hex. rewrite (proj2 (Z.ltb_lt _ _)) by lia.
  by rewrite (proj2 (Z.ltb_ge _ _)) by lia.
Qed.

Lemma typing_steps t (e : nat) (n : nat) :
  ∀ l, full_text l = t → In e (scheduled l) → 0 <= current_index l →
       (Z.to_nat (current_index l) + n ≤ length t)%nat →
       (0 < n)%nat →
       fire_times n e l
       = mkLabel t (take (Z.to_nat (current_index l) + n) t)
           (current_index l + Z.of_nat n) (_animation_event l) (scheduled l)
           (next_event l).
Proof.
  unfold fire_times. induction n as [|n IH]; intros l Ht Hin H0 Hn Hpos; [lia|].
  destruct n as [|n'].
  - simpl. rewrite fire_types by (rewrite ?Ht; done || lia). rewrite Ht.
    do 2 f_equal. lia.
  - rewrite Nat.iter_succ_r. rewrite fire_types by (rewrite ?Ht; done || lia).
    rewrite Ht in *. rewrite IH; cbn [full_text scheduled current_index
      _animation_event next_event]; try done; try lia.
    f_equal; [f_equal|]; lia.
Qed.

Lemma started_after t l (n : nat) :
  (n ≤ length t)%nat →
  fire_times n (next_event l) (start_animation t l)
  = mkLabel t (take n t) (Z.of_nat n) (Some (next_event l))
      (scheduled (start_animation t l)) (S (next_event l)).
Proof.
  intros Hn. destruct n as [|n']; [done|].
  rewrite (typing_steps t (next_event l) (S n') (start_animation t l));
    cbn [full_text scheduled current_index start_animation text
         _animation_event next_event Z.to_nat];
    [|done|by left|done|simpl; lia|lia].
  f_equal.
Qed.

(** X25. After [start_animation], each firing of the new event shows
    one more character: after [n] firings, [n] at most the length of the
    text, the label shows the first [n] characters, and the whole text
    after as many firings as it has characters; the event is still
    scheduled. *)
Theorem typewriter_reveals t l (n : nat) :
  (n ≤ length t)%nat →
  let shown := fire_times n (next_event l) (start_animation t l) in
  text shown = take n t
  ∧ current_index shown = Z.of_nat n
  ∧ In (next_event l) (scheduled shown)
  ∧ (n = length t → text shown = t).
Proof.
  intros Hn. cbv zeta. rewrite (started_after t l n Hn).
  cbn [text current_index scheduled start_animation].
  split; [done|]. split; [done|]. split; [by left|].
  intros ->. apply firstn_all.
Qed.

Lemma fire_at_end (e : nat) l :
  _animation_event l = Some e →
  In e (scheduled l) →
  current_index l = Z.of_nat (length (full_text l)) →
  fire e l
  = mkLabel (full_text l) (text l) (current_index l) None
      (cancel e (cancel e (scheduled l))) (next_event l).
Proof.
  intros He Hin Hidx. unfold fire, _type_next_char.
  assert (Hex : existsb (Nat.eqb e) (scheduled l) = true).
  { apply existsb_exists. exists e. split; [done|apply Nat.eqb_refl]. }
  rewrite Hex, He. by rewrite (proj2 (Z.ltb_ge _ _)) by lia.
Qed.

(** X26. The animation stops by itself: one firing after the last
    character the event is cancelled and forgotten, the label shows the
    whole text, and later firings of that event change nothing. *)
Theorem typewriter_finishes t l (k : nat) :
  let done := fire_times (length t + 1 + k) (next_event l) (start_animation t l) in
  text done = t
  ∧ current_index done = Z.of_nat (length t)
  ∧ _animation_event done = None
  ∧ ¬ In (next_event l) (scheduled done).
Proof.
  cbv zeta. set (e := next_event l).
  set (l1 := fire_times (length t) e (start_animation t l)).
  assert (Hl1 : l1 = mkLabel t t (Z.of_nat (length t)) (Some e)
                       (scheduled (start_animation t l)) (S e)).
  { unfold l1, e. rewrite (started_after t l (length t)) by done.
    by rewrite firstn_all. }
  assert (Hstop : fire_times (length t + 1) e (start_animation t l)
                  = mkLabel t t (Z.of_nat (length t)) None
                      (cancel e (cancel e (scheduled (start_animation t l)))) (S e)).
  { unfold fire_times. rewrite Nat.add_1_r, Nat.iter_succ.
    change (Nat.iter (length t) (fire e) (start_animation t l)) with l1.
    rewrite (fire_at_end e l1); rewrite Hl1; cbn [full_text text current_index
      _animation_event scheduled next_event start_animation]; try done. by left. }
  assert (Hk : fire_times (length t + 1 + k) e (start_animation t l)
               = fire_times (length t + 1) e (start_animation t l)).
  { induction k as [|k IH]; [by rewrite Nat.add_0_r|].
    unfold fire_times in *. rewrite Nat.add_succ_r, Nat.iter_succ, IH, Hstop. apply fire_unscheduled. cbn [scheduled]. apply cancel_absent. }
  rewrite Hk, Hstop. cbn [text current_index _animation_event scheduled].
  split; [done|]. split; [done|]. split; [done|]. apply cancel_absent.
Qed.

Lemma fire_cases (e : nat) l :
  let again := current_index l <? Z.of_nat (length (full_text l)) in
  fire e l = l
  ∨ (again = true
     ∧ fire e l
       = mkLabel (full_text l) (slice_to (full_text l) (current_index l + 1))
           (current_index l + 1) (_animation_event l) (scheduled l) (next_event l))
  ∨ (again = false
     ∧ full_text (fire e l) = full_text l ∧ text (fire e l) = text l
     ∧ current_index (fire e l) = current_index l
     ∧ _animation_event (fire e l) = None
     ∧ scheduled (fire e l)
       = cancel e (match _animation_event l with
                   | Some e' => cancel e' (scheduled l)
                   | None => scheduled l
                   end)).
Proof.
  cbv zeta. unfold fire, _type_next_char.
  destruct (existsb (Nat.eqb e) (scheduled l)); [|by left]. right.
  destruct (current_index l <? Z.of_nat (length (full_text l))); [by left|right].
  split; [done|]. by destruct l as [ft tx ci [e'|] sc ne].
Qed.

(** X27. Whatever texts are started and whichever events fire, the
    label shows a prefix of its full text, as many characters of it as
    the index says, and the clock holds at most one event of the label,
    the one it remembers. *)
Theorem label_shows_prefix_one_timer l :
  reachable l →
  text l = take (Z.to_nat (current_index l)) (full_text l)
  ∧ 0 <= current_index l <= Z.of_nat (length (full_text l))
  ∧ scheduled l = match _animation_event l with Some e => [e] | None => [] end.
Proof.
  induction 1 as [|t l _ (Htext & Hidx & Hsched)|e l _ (Htext & Hidx & Hsched)].
  - done.
  - cbn [start_animation text current_index full_text scheduled _animation_event].
    split; [done|]. split; [lia|]. rewrite Hsched.
    destruct (_animation_event l); [by rewrite cancel_self|done].
  - destruct (fire_cases e l) as [->|[(Hlt & ->)|(Hge & Hft & Htx & Hci & Hev & Hsc)]].
    + done.
    + apply Z.ltb_lt in Hlt.
      cbn [text current_index full_text scheduled _animation_event].
      unfold slice_to. rewrite (proj2 (Z.ltb_ge _ _)) by lia.
      split; [done|]. split; [lia|done].
    + rewrite Hft, Htx, Hci, Hev, Hsc, Hsched.
      split; [done|]. split; [done|].
      destruct (_animation_event l) as [e'|]; [|done].
      by rewrite cancel_self.
Qed.

End Typing.

Lemma typewriter_reveals_witness :
  text (fire_times 2 0 (start_animation ["h"; "e"; "y"]%char init)) = ["h"; "e"]%char.
Proof.
  refine (proj1 (typewriter_reveals ["h"; "e"; "y"]%char init 2 _)).
  simpl. lia.
Defined.

Lemma label_shows_prefix_one_timer_witness :
  scheduled (start_animation ["o"; "k"]%char (fire 0 (start_animation ["h"]%char init)))
  = [1%nat].
Proof.
  refine (proj2 (proj2 (label_shows_prefix_one_timer _ _))).
  apply reach_start, reach_fire, reach_start, reach_init.
Defined.

(** *** Placeholders *)

Lemma replace_no_brace (old new s : string) :
  has_char "{" s = false →
  replace_from 0 (String "{" old) new s = s.
Proof.
  induction s as [|c r IH]; [done|].
  cbn [has_char replace_from String.prefix]. intros Hno.
  apply orb_false_iff in Hno as [Hc Hr].
  destruct (ascii_dec "{" c) as [<-|_]; [done|]. by rewrite IH.
Qed.

(** X28. A text without an opening brace comes back from
    [replace_placeholders] as it went in, whatever the clock shows, for
    no user and for a user whose name is a string or missing. *)
Theorem plain_text_passes_through `{DatetimeFormat} (text : string) (user : json)
    (name : string) (now now' now'' : datetime) :
  has_char "{" text = false →
  DataCaller.get_user_name user = Ok (JStr name) →
  DataCaller.replace_placeholders text user now now' now'' = Ok text.
Proof.
  intros Hno Hname. unfold DataCaller.replace_placeholders. rewrite Hname.
  unfold py_replace, mbind, result_bind. cbv beta iota zeta.
  by do 4 rewrite (replace_no_brace _ _ text Hno).
Qed.

Lemma plain_text_passes_through_witness :
  DataCaller.replace_placeholders (H := Calendar.python_format)
    "See you at 5pm" JNull CallingSpec.noon CallingSpec.noon CallingSpec.noon
  = Ok "See you at 5pm".
Proof.
  apply (plain_text_passes_through (H := Calendar.python_format)
           "See you at 5pm" JNull "User").
  - reflexivity.
  - reflexivity.
Defined.

(** X29. A user record whose name is not a string makes
    [replace_placeholders] raise [TypeError], also for a text that has no
    placeholder in it. *)
Theorem name_not_a_string_raises `{DatetimeFormat} (text : string)
    (m : gmap string json) (v : json) (now now' now'' : datetime) :
  m !! "name" = Some v →
  (∀ s, v ≠ JStr s) →
  DataCaller.replace_placeholders text (JObj m) now now' now'' = Raise TypeError.
Proof.
  intros Hv Hns. unfold DataCaller.replace_placeholders, DataCaller.get_user_name.
  assert (Ht : truthy (JObj m) = true).
  { simpl. apply negb_true_iff, bool_decide_eq_false_2. intros Hsz.
    apply map_size_empty_iff in Hsz. by rewrite Hsz, lookup_empty in Hv. }
  rewrite Ht. unfold py_get, dict_get. rewrite Hv.
  unfold py_replace, mbind, result_bind.
  destruct v as [| | |s| |]; try done. by destruct (Hns s).
Qed.

Lemma name_not_a_string_raises_witness :
  DataCaller.replace_placeholders (H := Calendar.python_format)
    "hello" (JObj {[ "name" := JNum 7 ]}) CallingSpec.noon CallingSpec.noon CallingSpec.noon
  = Raise TypeError.
Proof.
  apply (name_not_a_string_raises (H := Calendar.python_format)
           "hello" {[ "name" := JNum 7 ]} (JNum 7)).
  - reflexivity.
  - intros s. discriminate.
Defined.

End TextMore.
